(** * Neon Snake: the game engine of [src/components/SnakeGame.tsx]

    A shallow embedding of the state and of the handlers of the [SnakeGame]
    React component, and the properties of the engine proved on it.

    Conventions of the embedding.
    - JavaScript numbers that hold grid coordinates, scores and levels are
      integers throughout the component; they are modelled as [Z].
    - [direction] is a [string] in the source and stays one here.
    - A [setGameState (prev => ...)] call is a function from game state to
      game state; handlers run one at a time, each on the state left by the
      one before it, so the state a closure captured is the current state.
    - [localStorage] is a record of the two keys the component uses, holding
      the values handed to [toString] / [JSON.stringify]; the strings
      themselves, and what [parseInt] / [JSON.parse] make of them, are not
      modelled, so nothing below speaks about reading a written value back.
    - [Math.floor (Math.random () * GRID_SIZE)] is drawn from a stream of
      integers, [randomCoordinate]; the component state counts the draws
      already consumed.
    - The [do ... while] loop of [generateFood] is a fixpoint on a fuel
      argument: [None] means the fuel ran out before the loop was left.
    - Sound, the settings panel and the history panel do not touch the game
      state and are left out. *)

From Stdlib Require Import ZArith List String Bool Lia.
Import ListNotations.
Open Scope Z_scope.

(** ** Data model *)

Record Position : Type := mkPosition { x : Z; y : Z }.

Module GameRecord.
Record t : Type := mk { score : Z; level : Z; date : string; difficulty : string }.
End GameRecord.

Record GameState : Type := mkGameState {
  snake : list Position;
  food : Position;
  direction : string;
  gameOver : bool;
  paused : bool;
  score : Z;
  level : Z;
  highScore : Z;
  gameHistory : list GameRecord.t
}.

Definition GRID_SIZE : Z := 20.
Definition INITIAL_SNAKE : list Position := [mkPosition 10 10].
Definition INITIAL_FOOD : Position := mkPosition 15 15.

Inductive Difficulty : Type := easy | medium | hard | insane.

Record DifficultyConfig : Type := mkConfig { speed : Z; name : string; color : string }.

Definition DIFFICULTIES (d : Difficulty) : DifficultyConfig :=
  match d with
  | easy => mkConfig 200 "Easy" "#00ff41"
  | medium => mkConfig 150 "Medium" "#ffff00"
  | hard => mkConfig 100 "Hard" "#ff8000"
  | insane => mkConfig 50 "Insane" "#ff0080"
  end.

(** The two [localStorage] keys; [None] is a key that was never written.
    A key holds the value that was turned into its string. *)
Record Storage : Type := mkStorage {
  snakeHighScore : option Z;
  snakeGameHistory : option (list GameRecord.t)
}.

(** The component: its [useState] cells that matter to the engine, the
    storage it writes, and the number of random draws made so far. *)
Record Component : Type := mkComponent {
  gameState : GameState;
  difficulty : Difficulty;
  gameStarted : bool;
  localStorage : Storage;
  randomCalls : nat
}.

(** ** Object spreads [{ ...prev, field: v }] *)

Definition withSnake (v : list Position) (g : GameState) : GameState :=
  mkGameState v (food g) (direction g) (gameOver g) (paused g) (score g)
    (level g) (highScore g) (gameHistory g).
Definition withFood (v : Position) (g : GameState) : GameState :=
  mkGameState (snake g) v (direction g) (gameOver g) (paused g) (score g)
    (level g) (highScore g) (gameHistory g).
Definition withDirection (v : string) (g : GameState) : GameState :=
  mkGameState (snake g) (food g) v (gameOver g) (paused g) (score g)
    (level g) (highScore g) (gameHistory g).
Definition withGameOver (v : bool) (g : GameState) : GameState :=
  mkGameState (snake g) (food g) (direction g) v (paused g) (score g)
    (level g) (highScore g) (gameHistory g).
Definition withPaused (v : bool) (g : GameState) : GameState :=
  mkGameState (snake g) (food g) (direction g) (gameOver g) v (score g)
    (level g) (highScore g) (gameHistory g).
Definition withScore (v : Z) (g : GameState) : GameState :=
  mkGameState (snake g) (food g) (direction g) (gameOver g) (paused g) v
    (level g) (highScore g) (gameHistory g).
Definition withLevel (v : Z) (g : GameState) : GameState :=
  mkGameState (snake g) (food g) (direction g) (gameOver g) (paused g)
    (score g) v (highScore g) (gameHistory g).
Definition withHighScore (v : Z) (g : GameState) : GameState :=
  mkGameState (snake g) (food g) (direction g) (gameOver g) (paused g)
    (score g) (level g) v (gameHistory g).
Definition withGameHistory (v : list GameRecord.t) (g : GameState) : GameState :=
  mkGameState (snake g) (food g) (direction g) (gameOver g) (paused g)
    (score g) (level g) (highScore g) v.

Definition withGameState (g : GameState) (w : Component) : Component :=
  mkComponent g (difficulty w) (gameStarted w) (localStorage w) (randomCalls w).
Definition withDifficulty (d : Difficulty) (w : Component) : Component :=
  mkComponent (gameState w) d (gameStarted w) (localStorage w) (randomCalls w).
Definition withGameStarted (b : bool) (w : Component) : Component :=
  mkComponent (gameState w) (difficulty w) b (localStorage w) (randomCalls w).
Definition withLocalStorage (s : Storage) (w : Component) : Component :=
  mkComponent (gameState w) (difficulty w) (gameStarted w) s (randomCalls w).
Definition withRandomCalls (n : nat) (w : Component) : Component :=
  mkComponent (gameState w) (difficulty w) (gameStarted w) (localStorage w) n.

(** ** Array helpers *)

(** [Array.prototype.some]. *)
Definition some {A : Type} (f : A -> bool) (l : list A) : bool := existsb f l.

(** [Array.prototype.pop], the array that is left. *)
Definition pop {A : Type} (l : list A) : list A := removelast l.

(** [Array.prototype.slice (0, n)]. *)
Definition slice0 {A : Type} (n : nat) (l : list A) : list A := firstn n l.

(** The test [segment.x === p.x && segment.y === p.y]. *)
Definition samePosition (p segment : Position) : bool :=
  (x segment =? x p) && (y segment =? y p).

(** ** Mounting: the state of [useState] and the load from [localStorage] *)

Definition initialGameState : GameState :=
  mkGameState INITIAL_SNAKE INITIAL_FOOD "RIGHT" false false 0 1 0 [].

Definition mount (stored : Storage) : Component :=
  let g := initialGameState in
  let g := match snakeHighScore stored with
           | Some h => withHighScore h g
           | None => g
           end in
  let g := match snakeGameHistory stored with
           | Some h => withGameHistory h g
           | None => g
           end in
  mkComponent g medium false stored 0.

(** ** saveGameData *)

(** [saveGameData score level], called on the component [w] on the day
    [today]: the storage after the two [setItem] calls, the state update
    it queues, and the record it built. *)
Definition saveGameData (w : Component) (today : string) (score level : Z)
  : Storage * (GameState -> GameState) * GameRecord.t :=
  let newHighScore := Z.max (highScore (gameState w)) score in
  let newRecord :=
    GameRecord.mk score level today (name (DIFFICULTIES (difficulty w))) in
  let updatedHistory := slice0 10 (newRecord :: gameHistory (gameState w)) in
  (mkStorage (Some newHighScore) (Some updatedHistory),
   fun prev => withGameHistory updatedHistory (withHighScore newHighScore prev),
   newRecord).

(** ** The step of the head *)

Definition moveHead (d : string) (head : Position) : Position :=
  if (d =? "UP")%string then mkPosition (x head) (y head - 1)
  else if (d =? "DOWN")%string then mkPosition (x head) (y head + 1)
  else if (d =? "LEFT")%string then mkPosition (x head - 1) (y head)
  else if (d =? "RIGHT")%string then mkPosition (x head + 1) (y head)
  else head.

(** The wall test of [gameLoop]. *)
Definition hitsWall (head : Position) : bool :=
  (x head <? 0) || (x head >=? GRID_SIZE) || (y head <? 0) || (y head >=? GRID_SIZE).

Inductive Collision : Type := Wall | Self.

(** The two collision tests of [gameLoop], in the order of the source. *)
Definition collision (head : Position) (body : list Position) : option Collision :=
  if hitsWall head then Some Wall
  else if some (samePosition head) body then Some Self
  else None.

(** ** renderGameBoard *)

(** The three tests of [renderGameBoard] on the cell in column [cx] of row
    [cy]; [snake[0]?.x] is undefined on an empty snake and equal to no
    number, and [slice (1)] is the snake without its first cell. *)
Definition isSnakeHead (g : GameState) (cx cy : Z) : bool :=
  match snake g with
  | [] => false
  | first :: _ => (x first =? cx) && (y first =? cy)
  end.

Definition isSnakeBody (g : GameState) (cx cy : Z) : bool :=
  some (fun segment => (x segment =? cx) && (y segment =? cy)) (tl (snake g)).

Definition isFood (g : GameState) (cx cy : Z) : bool :=
  (x (food g) =? cx) && (y (food g) =? cy).

Inductive CellKind : Type := HeadCell | BodyCell | FoodCell | EmptyCell.

Definition cellKind (g : GameState) (cx cy : Z) : CellKind :=
  if isSnakeHead g cx cy then HeadCell
  else if isSnakeBody g cx cy then BodyCell
  else if isFood g cx cy then FoodCell
  else EmptyCell.

(** The class name of a cell. *)
Definition cellClass (k : CellKind) : string :=
  ("w-4 h-4 border border-cyan-800/20 " ++
   match k with
   | HeadCell =>
       "bg-gradient-to-br from-cyan-400 to-cyan-600 shadow-lg shadow-cyan-500/50 animate-pulse"
   | BodyCell =>
       "bg-gradient-to-br from-cyan-500 to-cyan-700 shadow-md shadow-cyan-500/30"
   | FoodCell =>
       "bg-gradient-to-br from-pink-400 to-pink-600 shadow-lg shadow-pink-500/50 animate-pulse rounded-full"
   | EmptyCell => "bg-gray-900/20 hover:bg-gray-800/30 transition-colors"
   end)%string.

(** The values of a loop [for (let i = 0; i < GRID_SIZE; i++)]. *)
Definition gridIndices : list Z := map Z.of_nat (seq 0 (Z.to_nat GRID_SIZE)).

(** The cells pushed by the two loops, rows outside and columns inside;
    a cell is its coordinates, of which its key is made, and its class name. *)
Definition renderGameBoard (g : GameState) : list (Position * string) :=
  flat_map
    (fun cy =>
       map (fun cx => (mkPosition cx cy, cellClass (cellKind g cx cy))) gridIndices)
    gridIndices.

Section Engine.

(** The [n]-th value of [Math.floor (Math.random () * GRID_SIZE)]. *)
Variable randomCoordinate : nat -> Z.

(** ** generateFood *)

Fixpoint generateFood (fuel : nat) (snake : list Position) (calls : nat)
  : option (Position * nat) :=
  match fuel with
  | O => None
  | S fuel' =>
      let newFood :=
        mkPosition (randomCoordinate calls) (randomCoordinate (S calls)) in
      if some (samePosition newFood) snake
      then generateFood fuel' snake (S (S calls))
      else Some (newFood, S (S calls))
  end.

(** ** gameLoop *)

(** The body of the collision branches:
    [saveGameData (prev.score, prev.level); return { ...prev, gameOver: true }],
    followed by the update [saveGameData] queued. *)
Definition endGame (w : Component) (today : string)
  : Component * list GameRecord.t :=
  let prev := gameState w in
  let '(stored, queued, record) := saveGameData w today (score prev) (level prev) in
  (withLocalStorage stored (withGameState (queued (withGameOver true prev)) w),
   [record]).

(** One call of [gameLoop]: the component after it and the records it
    handed to [saveGameData].  With an empty snake the copied head has no
    coordinates, every comparison on it fails, and the cell pushed by
    [unshift] is removed again by [pop]: the state is left as it was. *)
Definition gameLoop (fuel : nat) (w : Component) (today : string)
  : option (Component * list GameRecord.t) :=
  let prev := gameState w in
  if gameOver prev || paused prev then Some (w, [])
  else
    match snake prev with
    | [] => Some (w, [])
    | first :: _ =>
        let newSnake := snake prev in
        let head := moveHead (direction prev) first in
        match collision head newSnake with
        | Some _ => Some (endGame w today)
        | None =>
            let newSnake := head :: newSnake in
            if (x head =? x (food prev)) && (y head =? y (food prev))
            then
              match generateFood fuel newSnake (randomCalls w) with
              | None => None
              | Some (newFood, calls) =>
                  let newScore := score prev + 10 in
                  let newLevel := newScore / 100 + 1 in
                  Some (withRandomCalls calls
                          (withGameState
                             (withLevel newLevel
                                (withScore newScore
                                   (withFood newFood (withSnake newSnake prev))))
                             w),
                        [])
              end
            else
              Some (withGameState (withSnake (pop newSnake) prev) w, [])
        end
    end.

(** ** Input handlers *)

Definition togglePause (w : Component) : Component :=
  if gameStarted w && negb (gameOver (gameState w))
  then withGameState (withPaused (negb (paused (gameState w))) (gameState w)) w
  else w.

Definition handleKeyPress (w : Component) (key : string) : Component :=
  if negb (gameStarted w) || gameOver (gameState w) then w
  else if (key =? "ArrowUp")%string then
    if negb (direction (gameState w) =? "DOWN")%string
    then withGameState (withDirection "UP" (gameState w)) w
    else w
  else if (key =? "ArrowDown")%string then
    if negb (direction (gameState w) =? "UP")%string
    then withGameState (withDirection "DOWN" (gameState w)) w
    else w
  else if (key =? "ArrowLeft")%string then
    if negb (direction (gameState w) =? "RIGHT")%string
    then withGameState (withDirection "LEFT" (gameState w)) w
    else w
  else if (key =? "ArrowRight")%string then
    if negb (direction (gameState w) =? "LEFT")%string
    then withGameState (withDirection "RIGHT" (gameState w)) w
    else w
  else if (key =? " ")%string then togglePause w
  else w.

Definition startGame (fuel : nat) (w : Component) : option Component :=
  match generateFood fuel INITIAL_SNAKE (randomCalls w) with
  | None => None
  | Some (newFood, calls) =>
      Some (withRandomCalls calls
              (withGameStarted true
                 (withGameState
                    (mkGameState INITIAL_SNAKE newFood "RIGHT" false false 0 1
                       (highScore (gameState w)) (gameHistory (gameState w)))
                    w)))
  end.

Definition resetGame (w : Component) : Component :=
  withGameState
    (withLevel 1
       (withScore 0
          (withPaused false
             (withGameOver false
                (withDirection "RIGHT"
                   (withFood INITIAL_FOOD
                      (withSnake INITIAL_SNAKE (gameState w))))))))
    (withGameStarted false w).

(** ** The component as a transition system *)

Inductive Event : Type :=
| Tick (today : string)
| KeyDown (key : string)
| ClickStart
| ClickPause
| ClickReset
| SelectDifficulty (d : Difficulty).

(** The interval of the game loop exists only under this condition. *)
Definition intervalRunning (w : Component) : bool :=
  gameStarted w && negb (gameOver (gameState w)) && negb (paused (gameState w)).

(** The start button is rendered when the game is not started, the pause
    button when it is. *)
Definition step (fuel : nat) (w : Component) (e : Event)
  : option (Component * list GameRecord.t) :=
  match e with
  | Tick today => if intervalRunning w then gameLoop fuel w today else Some (w, [])
  | KeyDown key => Some (handleKeyPress w key, [])
  | ClickStart =>
      if gameStarted w then Some (w, [])
      else option_map (fun w' => (w', [])) (startGame fuel w)
  | ClickPause => if gameStarted w then Some (togglePause w, []) else Some (w, [])
  | ClickReset => Some (resetGame w, [])
  | SelectDifficulty d => Some (withDifficulty d w, [])
  end.

(** A sequence of events, with the records it emits in order. *)
Fixpoint run (fuel : nat) (w : Component) (events : list Event)
  : option (Component * list GameRecord.t) :=
  match events with
  | [] => Some (w, [])
  | e :: events' =>
      match step fuel w e with
      | None => None
      | Some (w', out) =>
          match run fuel w' events' with
          | None => None
          | Some (w'', out') => Some (w'', out ++ out')
          end
      end
  end.

Inductive reachable : Component -> Prop :=
| reachable_mount : forall stored, reachable (mount stored)
| reachable_step : forall fuel w e w' out,
    reachable w -> step fuel w e = Some (w', out) -> reachable w'.

(** The lifecycle state the component displays. *)
Inductive LifecycleState : Type := Idle | Running | Paused | GameOver.

Definition lifecycle (w : Component) : LifecycleState :=
  if negb (gameStarted w) then Idle
  else if gameOver (gameState w) then GameOver
  else if paused (gameState w) then Paused
  else Running.

(** A cell of the grid: the wall test fails on it. *)
Definition inGrid (p : Position) : Prop := hitsWall p = false.

(** The cell made of the two draws that start at [calls]. *)
Definition drawnCell (calls : nat) : Position :=
  mkPosition (randomCoordinate calls) (randomCoordinate (S calls)).

(** The invariants of the game state. *)
Definition snakeInvariant (g : GameState) : Prop :=
  NoDup (snake g) /\ (1 <= List.length (snake g))%nat.

Definition foodInvariant (g : GameState) : Prop :=
  ~ In (food g) (snake g).

Definition scoreInvariant (g : GameState) : Prop :=
  level g = score g / 100 + 1 /\ 0 <= score g /\ score g mod 10 = 0.

Definition gridInvariant (g : GameState) : Prop := inGrid (food g).

(** The fields of the game state the board is drawn from. *)
Definition board (g : GameState) : list Position * Position * Z * Z :=
  (snake g, food g, score g, level g).

(** The board of a game that was just started or reset. *)
Definition freshBoard (g : GameState) : Prop :=
  snake g = INITIAL_SNAKE /\ score g = 0 /\ level g = 1 /\
  (food g = INITIAL_FOOD \/
   exists fuel calls calls',
     generateFood fuel INITIAL_SNAKE calls = Some (food g, calls')).

(** The head [gameLoop] tries: the first cell moved one step. *)
Definition proposedHead (g : GameState) (first : Position) : Position :=
  moveHead (direction g) first.

(** The four ways through [gameLoop]. *)
Inductive ticks (fuel : nat) (w : Component) (today : string)
  : Component -> list GameRecord.t -> Prop :=
| ticks_idle :
    gameOver (gameState w) || paused (gameState w) = true \/
    snake (gameState w) = [] ->
    ticks fuel w today w []
| ticks_collides : forall first rest c,
    gameOver (gameState w) || paused (gameState w) = false ->
    snake (gameState w) = first :: rest ->
    collision (proposedHead (gameState w) first) (snake (gameState w)) = Some c ->
    ticks fuel w today (fst (endGame w today)) (snd (endGame w today))
| ticks_eats : forall first rest newFood calls,
    gameOver (gameState w) || paused (gameState w) = false ->
    snake (gameState w) = first :: rest ->
    collision (proposedHead (gameState w) first) (snake (gameState w)) = None ->
    proposedHead (gameState w) first = food (gameState w) ->
    generateFood fuel (proposedHead (gameState w) first :: snake (gameState w))
      (randomCalls w) = Some (newFood, calls) ->
    ticks fuel w today
      (withRandomCalls calls
         (withGameState
            (withLevel ((score (gameState w) + 10) / 100 + 1)
               (withScore (score (gameState w) + 10)
                  (withFood newFood
                     (withSnake
                        (proposedHead (gameState w) first :: snake (gameState w))
                        (gameState w)))))
            w))
      []
| ticks_moves : forall first rest,
    gameOver (gameState w) || paused (gameState w) = false ->
    snake (gameState w) = first :: rest ->
    collision (proposedHead (gameState w) first) (snake (gameState w)) = None ->
    proposedHead (gameState w) first <> food (gameState w) ->
    ticks fuel w today
      (withGameState
         (withSnake
            (pop (proposedHead (gameState w) first :: snake (gameState w)))
            (gameState w))
         w)
      [].

(** The key that asks for a direction, with the direction under which
    [handleKeyPress] turns the request down. *)
Definition reversals : list (string * string) :=
  [("ArrowUp", "DOWN"); ("ArrowDown", "UP");
   ("ArrowLeft", "RIGHT"); ("ArrowRight", "LEFT")]%string.

(** The record [saveGameData] builds for the game in progress. *)
Definition currentRecord (w : Component) (today : string) : GameRecord.t :=
  GameRecord.mk (score (gameState w)) (level (gameState w)) today
    (name (DIFFICULTIES (difficulty w))).

(** The four directions the component ever stores. *)
Definition directions : list string := ["UP"; "DOWN"; "LEFT"; "RIGHT"]%string.

(** The key that asks for a direction, with that direction. *)
Definition arrows : list (string * string) :=
  [("ArrowUp", "UP"); ("ArrowDown", "DOWN");
   ("ArrowLeft", "LEFT"); ("ArrowRight", "RIGHT")]%string.

(** A direction, a key that turns away from it, the key that then asks for
    its opposite, and that opposite. *)
Definition quickTurns : list (string * string * string * string) :=
  [("RIGHT", "ArrowUp", "ArrowLeft", "LEFT");
   ("RIGHT", "ArrowDown", "ArrowLeft", "LEFT");
   ("LEFT", "ArrowUp", "ArrowRight", "RIGHT");
   ("LEFT", "ArrowDown", "ArrowRight", "RIGHT");
   ("UP", "ArrowLeft", "ArrowDown", "DOWN");
   ("UP", "ArrowRight", "ArrowDown", "DOWN");
   ("DOWN", "ArrowLeft", "ArrowUp", "UP");
   ("DOWN", "ArrowRight", "ArrowUp", "UP")]%string.

(** Two cells that share a side. *)
Definition adjacent (a b : Position) : Prop :=
  Z.abs (x a - x b) + Z.abs (y a - y b) = 1.

(** Every cell of the list shares a side with the next one. *)
Fixpoint chain (l : list Position) : Prop :=
  match l with
  | a :: (b :: _) as l' => adjacent a b /\ chain l'
  | _ => True
  end.

(** What an event can do to the component. *)
Inductive changes (fuel : nat) (w : Component)
  : Component -> list GameRecord.t -> Prop :=
| changes_nothing : changes fuel w w []
| changes_direction : forall d,
    In d directions ->
    gameStarted w = true -> gameOver (gameState w) = false ->
    changes fuel w (withGameState (withDirection d (gameState w)) w) []
| changes_paused :
    gameStarted w = true -> gameOver (gameState w) = false ->
    changes fuel w
      (withGameState (withPaused (negb (paused (gameState w))) (gameState w)) w) []
| changes_start : forall w',
    gameStarted w = false -> startGame fuel w = Some w' ->
    changes fuel w w' []
| changes_reset : changes fuel w (resetGame w) []
| changes_difficulty : forall d, changes fuel w (withDifficulty d w) []
| changes_tick : forall today w' out,
    lifecycle w = Running -> ticks fuel w today w' out ->
    changes fuel w w' out.

(** ** Lists of cells *)

Lemma samePosition_true p q : samePosition p q = true <-> q = p.
Proof.
  unfold samePosition. rewrite andb_true_iff, !Z.eqb_eq.
  destruct p, q; simpl. split.
  - intros [-> ->]. reflexivity.
  - intros H. injection H as -> ->. auto.
Qed.

Lemma some_samePosition_true p l : some (samePosition p) l = true <-> In p l.
Proof.
  unfold some. rewrite existsb_exists. split.
  - intros [q [Hin Hq]]. apply samePosition_true in Hq. subst. exact Hin.
  - intros Hin. exists p. split; [exact Hin | now apply samePosition_true].
Qed.

Lemma some_samePosition_false p l : some (samePosition p) l = false <-> ~ In p l.
Proof.
  rewrite <- some_samePosition_true.
  destruct (some (samePosition p) l); split; intros H;
    try reflexivity; try discriminate; try (exfalso; now apply H).
Qed.

Lemma pop_cons_length {A : Type} (a : A) (l : list A) :
  List.length (pop (a :: l)) = List.length l.
Proof.
  unfold pop. revert a. induction l as [|b l IH]; intros a; [reflexivity|].
  change (removelast (a :: b :: l)) with (a :: removelast (b :: l)).
  cbn [List.length]. f_equal. apply IH.
Qed.

Lemma pop_incl {A : Type} (l : list A) (a : A) : In a (pop l) -> In a l.
Proof.
  unfold pop. induction l as [|b l IH]; [auto|].
  destruct l as [|c l]; [intros []|].
  change (removelast (b :: c :: l)) with (b :: removelast (c :: l)).
  intros [->|H]; [now left | right; auto].
Qed.

Lemma pop_NoDup {A : Type} (l : list A) : NoDup l -> NoDup (pop l).
Proof.
  unfold pop. induction l as [|b l IH]; [auto|].
  destruct l as [|c l]; [intros _; constructor|].
  change (removelast (b :: c :: l)) with (b :: removelast (c :: l)).
  intros H. inversion H as [|? ? Hb Hl]; subst. constructor.
  - intros Hin. apply Hb. now apply (pop_incl (c :: l)).
  - now apply IH.
Qed.

Lemma last_In {A : Type} (l : list A) (d : A) : l <> [] -> In (last l d) l.
Proof.
  induction l as [|a l IH]; [congruence|]. intros _.
  destruct l as [|b l]; [now left|].
  change (last (a :: b :: l) d) with (last (b :: l) d).
  right. apply IH. discriminate.
Qed.

(** ** When generateFood returns, and what *)

Lemma generateFood_free fuel occupied calls p calls' :
  generateFood fuel occupied calls = Some (p, calls') ->
  some (samePosition p) occupied = false.
Proof.
  revert calls. induction fuel as [|fuel IH]; intros calls; [discriminate|].
  cbn [generateFood]. fold (drawnCell calls).
  destruct (some (samePosition (drawnCell calls)) occupied) eqn:E.
  - apply IH.
  - intros H. injection H as <- _. exact E.
Qed.

(** The loop returns the first drawn cell that is free, and has then made
    two draws for each cell it looked at. *)
Lemma generateFood_first_free occupied k : forall calls,
  (forall j, (j < k)%nat -> some (samePosition (drawnCell (calls + 2 * j))) occupied = true) ->
  some (samePosition (drawnCell (calls + 2 * k))) occupied = false ->
  forall fuel, (k < fuel)%nat ->
  generateFood fuel occupied calls = Some (drawnCell (calls + 2 * k), (calls + 2 * k + 2)%nat).
Proof.
  induction k as [|k IH]; intros calls Hbusy Hfree fuel Hfuel.
  - destruct fuel as [|fuel]; [lia|].
    assert (E : (calls + 2 * 0 = calls)%nat) by lia. rewrite E in *.
    cbn [generateFood]. fold (drawnCell calls). rewrite Hfree.
    do 2 f_equal. lia.
  - destruct fuel as [|fuel]; [lia|].
    cbn [generateFood]. fold (drawnCell calls).
    pose proof (Hbusy 0%nat ltac:(lia)) as H0.
    assert (E : (calls + 2 * 0 = calls)%nat) by lia. rewrite E in H0.
    rewrite H0.
    assert (E' : forall j, (calls + 2 * S j = S (S calls) + 2 * j)%nat) by (intros; lia).
    rewrite E' in *.
    apply IH; [|exact Hfree|lia].
    intros j Hj. rewrite <- E'. apply Hbusy. lia.
Qed.

(** If some cell still to be drawn is free, the loop is left. *)
Lemma generateFood_returns occupied k : forall calls,
  some (samePosition (drawnCell (calls + 2 * k))) occupied = false ->
  exists p calls', generateFood (S k) occupied calls = Some (p, calls').
Proof.
  induction k as [|k IH]; intros calls Hfree.
  - assert (E : (calls + 2 * 0 = calls)%nat) by lia. rewrite E in Hfree.
    cbn [generateFood]. fold (drawnCell calls). rewrite Hfree. eauto.
  - cbn [generateFood]. fold (drawnCell calls).
    destruct (some (samePosition (drawnCell calls)) occupied) eqn:E; [|eauto].
    apply IH.
    assert (E' : (S (S calls) + 2 * k = calls + 2 * S k)%nat) by lia.
    rewrite E'. exact Hfree.
Qed.

(** If every cell still to be drawn is occupied, the loop is never left. *)
Lemma generateFood_diverges occupied :
  (forall calls, some (samePosition (drawnCell calls)) occupied = true) ->
  forall fuel calls, generateFood fuel occupied calls = None.
Proof.
  intros Hbusy. induction fuel as [|fuel IH]; intros calls; simpl; [reflexivity|].
  fold (drawnCell calls). rewrite Hbusy. apply IH.
Qed.

(** ** The ways through gameLoop *)

Lemma eats_test head target :
  (x head =? x target) && (y head =? y target) = samePosition target head.
Proof. reflexivity. Qed.

Lemma gameLoop_ticks fuel w today w' out :
  gameLoop fuel w today = Some (w', out) -> ticks fuel w today w' out.
Proof.
  unfold gameLoop.
  destruct (gameOver (gameState w) || paused (gameState w)) eqn:Hrun.
  { intros H. injection H as <- <-. apply ticks_idle. now left. }
  destruct (snake (gameState w)) as [|first rest] eqn:Hsnake.
  { intros H. injection H as <- <-. apply ticks_idle. now right. }
  fold (proposedHead (gameState w) first). rewrite <- Hsnake.
  destruct (collision _ _) as [c|] eqn:Hcol.
  { intros H. assert (H' : endGame w today = (w', out)) by congruence.
    change (ticks fuel w today (fst (w', out)) (snd (w', out))). rewrite <- H'.
    now apply ticks_collides with first rest c. }
  rewrite eats_test.
  destruct (samePosition _ _) eqn:Heat.
  - apply samePosition_true in Heat.
    destruct (generateFood _ _ _) as [[newFood calls]|] eqn:Hgen; [|discriminate].
    intros H. injection H as <- <-. now apply ticks_eats with rest.
  - intros H. injection H as <- <-. apply ticks_moves with rest; auto.
    intros Heq. apply samePosition_true in Heq. congruence.
Qed.

Lemma gameLoop_collides fuel w today first rest c :
  gameOver (gameState w) || paused (gameState w) = false ->
  snake (gameState w) = first :: rest ->
  collision (proposedHead (gameState w) first) (snake (gameState w)) = Some c ->
  gameLoop fuel w today = Some (endGame w today).
Proof.
  intros Hrun Hsnake Hcol. unfold gameLoop. rewrite Hrun, Hsnake.
  fold (proposedHead (gameState w) first). rewrite <- Hsnake, Hcol. reflexivity.
Qed.

Lemma gameLoop_moves fuel w today first rest :
  gameOver (gameState w) || paused (gameState w) = false ->
  snake (gameState w) = first :: rest ->
  collision (proposedHead (gameState w) first) (snake (gameState w)) = None ->
  proposedHead (gameState w) first <> food (gameState w) ->
  gameLoop fuel w today =
  Some (withGameState
          (withSnake
             (pop (proposedHead (gameState w) first :: snake (gameState w)))
             (gameState w))
          w, []).
Proof.
  intros Hrun Hsnake Hcol Hne. unfold gameLoop. rewrite Hrun, Hsnake.
  fold (proposedHead (gameState w) first). rewrite <- Hsnake, Hcol, eats_test.
  destruct (samePosition _ _) eqn:Heat; [|reflexivity].
  apply samePosition_true in Heat. contradiction.
Qed.

Lemma gameLoop_eats fuel w today first rest newFood calls :
  gameOver (gameState w) || paused (gameState w) = false ->
  snake (gameState w) = first :: rest ->
  collision (proposedHead (gameState w) first) (snake (gameState w)) = None ->
  proposedHead (gameState w) first = food (gameState w) ->
  generateFood fuel (proposedHead (gameState w) first :: snake (gameState w))
    (randomCalls w) = Some (newFood, calls) ->
  gameLoop fuel w today =
  Some (withRandomCalls calls
          (withGameState
             (withLevel ((score (gameState w) + 10) / 100 + 1)
                (withScore (score (gameState w) + 10)
                   (withFood newFood
                      (withSnake
                         (proposedHead (gameState w) first :: snake (gameState w))
                         (gameState w)))))
             w), []).
Proof.
  intros Hrun Hsnake Hcol Heq Hgen. unfold gameLoop. rewrite Hrun, Hsnake.
  fold (proposedHead (gameState w) first). rewrite <- Hsnake, Hcol, eats_test.
  assert (Heat : samePosition (food (gameState w)) (proposedHead (gameState w) first) = true)
    by now apply samePosition_true.
  rewrite Heat, Hgen. reflexivity.
Qed.

(** ** What each handler does to the board *)

Lemma endGame_board w today :
  board (gameState (fst (endGame w today))) = board (gameState w).
Proof. reflexivity. Qed.

Lemma togglePause_board w :
  board (gameState (togglePause w)) = board (gameState w).
Proof.
  unfold togglePause.
  destruct (gameStarted w && negb (gameOver (gameState w))); reflexivity.
Qed.

Lemma handleKeyPress_board w key :
  board (gameState (handleKeyPress w key)) = board (gameState w).
Proof.
  unfold handleKeyPress.
  destruct (negb (gameStarted w) || gameOver (gameState w)); [reflexivity|].
  repeat match goal with
         | |- context [if ?b then _ else _] => destruct b; try reflexivity
         end.
  apply togglePause_board.
Qed.

Lemma resetGame_fresh w : freshBoard (gameState (resetGame w)).
Proof. unfold freshBoard. simpl. auto. Qed.

Lemma startGame_fresh fuel w w' :
  startGame fuel w = Some w' -> freshBoard (gameState w').
Proof.
  unfold startGame.
  destruct (generateFood fuel INITIAL_SNAKE (randomCalls w)) as [[newFood calls]|] eqn:E;
    [|discriminate].
  intros H. injection H as <-. unfold freshBoard. simpl.
  repeat split. right. eauto.
Qed.

Lemma mount_fresh stored : freshBoard (gameState (mount stored)).
Proof.
  unfold mount, freshBoard.
  destruct (snakeHighScore stored), (snakeGameHistory stored); simpl; auto.
Qed.

(** Every event leaves the board alone, makes it fresh, or is a call of
    [gameLoop]. *)
Lemma step_board fuel w e w' out :
  step fuel w e = Some (w', out) ->
  board (gameState w') = board (gameState w) \/
  freshBoard (gameState w') \/
  exists today, ticks fuel w today w' out.
Proof.
  destruct e as [today|key| | | |d]; simpl.
  - destruct (intervalRunning w).
    + intros H. right. right. exists today. now apply gameLoop_ticks.
    + intros H. injection H as <- <-. now left.
  - intros H. injection H as <- <-. left. apply handleKeyPress_board.
  - destruct (gameStarted w).
    + intros H. injection H as <- <-. now left.
    + destruct (startGame fuel w) as [w1|] eqn:E; simpl; [|discriminate].
      intros H. injection H as <- <-. right. left. now apply startGame_fresh with fuel w.
  - destruct (gameStarted w); intros H; injection H as <- <-; left;
      [apply togglePause_board | reflexivity].
  - intros H. injection H as <- <-. right. left. apply resetGame_fresh.
  - intros H. injection H as <- <-. now left.
Qed.

(** An invariant of the board holds in every reachable state as soon as
    fresh boards have it and [gameLoop] keeps it. *)
Section BoardInvariant.

Variable P : GameState -> Prop.
Hypothesis P_board : forall g g', board g = board g' -> P g -> P g'.
Hypothesis P_fresh : forall g, freshBoard g -> P g.
Hypothesis P_ticks : forall fuel w today w' out,
  P (gameState w) -> ticks fuel w today w' out -> P (gameState w').

Lemma step_keeps fuel w e w' out :
  P (gameState w) -> step fuel w e = Some (w', out) -> P (gameState w').
Proof.
  intros HP Hstep.
  destruct (step_board _ _ _ _ _ Hstep) as [Hsame|[Hfresh|[today Hticks]]].
  - now apply P_board with (gameState w).
  - now apply P_fresh.
  - now apply P_ticks with fuel w today out.
Qed.

Lemma reachable_keeps w : reachable w -> P (gameState w).
Proof.
  induction 1 as [stored|fuel w e w' out _ IH Hstep].
  - apply P_fresh, mount_fresh.
  - now apply step_keeps with fuel w e out.
Qed.

End BoardInvariant.

Lemma reachable_run fuel events : forall w w' out,
  reachable w -> run fuel w events = Some (w', out) -> reachable w'.
Proof.
  induction events as [|e events IH]; intros w w' out Hreach; simpl.
  - intros H. injection H as <- _. exact Hreach.
  - destruct (step fuel w e) as [[w1 out1]|] eqn:Hstep; [|discriminate].
    destruct (run fuel w1 events) as [[w2 out2]|] eqn:Hrun; [|discriminate].
    intros H. injection H as <- _.
    apply (IH w1 w2 out2); [|exact Hrun].
    now apply reachable_step with fuel w e out1.
Qed.

(** ** The invariants *)

Lemma collision_None head body :
  collision head body = None -> inGrid head /\ ~ In head body.
Proof.
  unfold collision, inGrid. destruct (hitsWall head); [discriminate|].
  destruct (some (samePosition head) body) eqn:E; [discriminate|].
  intros _. split; [reflexivity | now apply some_samePosition_false].
Qed.

Lemma snakeInvariant_board g g' :
  board g = board g' -> snakeInvariant g -> snakeInvariant g'.
Proof. unfold board, snakeInvariant. intros H. injection H as <- _ _ _. auto. Qed.

Lemma snakeInvariant_fresh g : freshBoard g -> snakeInvariant g.
Proof.
  intros [Hs _]. unfold snakeInvariant. rewrite Hs. split.
  - repeat constructor. intros [].
  - simpl. lia.
Qed.

Lemma snakeInvariant_ticks fuel w today w' out :
  snakeInvariant (gameState w) -> ticks fuel w today w' out ->
  snakeInvariant (gameState w').
Proof.
  intros [Hnd Hlen] Ht.
  destruct Ht as [_|first rest c _ _ _|first rest newFood calls _ _ Hcol _ _
                 |first rest _ _ Hcol _]; unfold snakeInvariant.
  - auto.
  - auto.
  - apply collision_None in Hcol as [_ Hnew]. cbn [gameState withRandomCalls
      withGameState snake withLevel withScore withFood withSnake]. split.
    + now constructor.
    + simpl. lia.
  - apply collision_None in Hcol as [_ Hnew]. cbn [gameState withGameState snake
      withSnake]. split.
    + apply pop_NoDup. now constructor.
    + rewrite pop_cons_length. exact Hlen.
Qed.

Lemma foodInvariant_board g g' :
  board g = board g' -> foodInvariant g -> foodInvariant g'.
Proof. unfold board, foodInvariant. intros H. injection H as <- <- _ _. auto. Qed.

Lemma foodInvariant_fresh g : freshBoard g -> foodInvariant g.
Proof.
  intros (Hs & _ & _ & Hf). unfold foodInvariant. rewrite Hs.
  destruct Hf as [->|(fuel & calls & calls' & Hgen)].
  - intros [H|[]]. discriminate.
  - apply some_samePosition_false. now apply generateFood_free with fuel calls calls'.
Qed.

Lemma foodInvariant_ticks fuel w today w' out :
  foodInvariant (gameState w) -> ticks fuel w today w' out ->
  foodInvariant (gameState w').
Proof.
  intros Hfood Ht.
  destruct Ht as [_|first rest c _ _ _|first rest newFood calls _ _ _ _ Hgen
                 |first rest _ _ _ Hne]; unfold foodInvariant.
  - auto.
  - auto.
  - cbn [gameState withRandomCalls withGameState snake food withLevel withScore
      withFood withSnake].
    apply some_samePosition_false. now apply generateFood_free in Hgen.
  - cbn [gameState withGameState snake food withSnake].
    intros Hin. apply pop_incl in Hin. destruct Hin as [Heq|Hin].
    + now apply Hne.
    + now apply Hfood.
Qed.

Lemma scoreInvariant_board g g' :
  board g = board g' -> scoreInvariant g -> scoreInvariant g'.
Proof. unfold board, scoreInvariant. intros H. injection H as _ _ <- <-. auto. Qed.

Lemma scoreInvariant_fresh g : freshBoard g -> scoreInvariant g.
Proof.
  intros (_ & Hs & Hl & _). unfold scoreInvariant. rewrite Hs, Hl. repeat split. lia.
Qed.

Lemma scoreInvariant_ticks fuel w today w' out :
  scoreInvariant (gameState w) -> ticks fuel w today w' out ->
  scoreInvariant (gameState w').
Proof.
  intros (Hlevel & Hpos & Hten) Ht.
  destruct Ht as [_|first rest c _ _ _|first rest newFood calls _ _ _ _ _
                 |first rest _ _ _ _]; unfold scoreInvariant.
  - auto.
  - auto.
  - cbn [gameState withRandomCalls withGameState score level withLevel withScore
      withFood withSnake].
    repeat split; [lia|].
    rewrite <- Z.add_mod_idemp_l, Hten by lia. reflexivity.
  - auto.
Qed.

(** ** The lifecycle *)

Lemma lifecycle_Running w :
  lifecycle w = Running <->
  gameStarted w = true /\ gameOver (gameState w) = false /\
  paused (gameState w) = false.
Proof.
  unfold lifecycle.
  destruct (gameStarted w), (gameOver (gameState w)), (paused (gameState w));
    simpl; split; try discriminate; try tauto;
    intros (? & ? & ?); discriminate.
Qed.

Lemma running_guard w :
  lifecycle w = Running ->
  gameOver (gameState w) || paused (gameState w) = false.
Proof. intros H. apply lifecycle_Running in H as (_ & -> & ->). reflexivity. Qed.

Lemma endGame_lifecycle w today :
  gameStarted w = true -> lifecycle (fst (endGame w today)) = GameOver.
Proof. intros H. unfold lifecycle. simpl. rewrite H. reflexivity. Qed.

(** ** The first free cell among the draws *)

Lemma first_free occupied calls k :
  some (samePosition (drawnCell (calls + 2 * k))) occupied = false ->
  exists j, (j <= k)%nat /\
    some (samePosition (drawnCell (calls + 2 * j))) occupied = false /\
    forall i, (i < j)%nat ->
      some (samePosition (drawnCell (calls + 2 * i))) occupied = true.
Proof.
  induction k as [k IH] using (well_founded_induction Wf_nat.lt_wf). intros Hk.
  destruct (forallb (fun i => some (samePosition (drawnCell (calls + 2 * i))) occupied)
              (seq 0 k)) eqn:E.
  - exists k. repeat split; [lia|exact Hk|].
    intros i Hi. rewrite forallb_forall in E. apply E, in_seq. lia.
  - assert (Hex : exists i, In i (seq 0 k) /\
                some (samePosition (drawnCell (calls + 2 * i))) occupied = false).
    { clear -E. induction (seq 0 k) as [|a l IHl]; [discriminate|].
      simpl in E. apply andb_false_iff in E as [E|E].
      - exists a. split; [now left | exact E].
      - destruct (IHl E) as [i [Hi Hf]]. exists i. split; [now right | exact Hf]. }
    destruct Hex as [i [Hi Hf]]. apply in_seq in Hi.
    destruct (IH i ltac:(lia) Hf) as [j (Hj & Hjf & Hjb)].
    exists j. repeat split; [lia|exact Hjf|exact Hjb].
Qed.

(** ** The grid, when the draws are coordinates of the grid *)

Section InRange.

Hypothesis randomCoordinate_range :
  forall n, 0 <= randomCoordinate n < GRID_SIZE.

Lemma drawnCell_inGrid calls : inGrid (drawnCell calls).
Proof.
  unfold inGrid, hitsWall, drawnCell. simpl.
  pose proof (randomCoordinate_range calls).
  pose proof (randomCoordinate_range (S calls)).
  repeat (apply orb_false_intro); lia.
Qed.

Lemma generateFood_inGrid fuel occupied : forall calls p calls',
  generateFood fuel occupied calls = Some (p, calls') -> inGrid p.
Proof.
  induction fuel as [|fuel IH]; intros calls p calls'; [discriminate|].
  cbn [generateFood]. fold (drawnCell calls).
  destruct (some (samePosition (drawnCell calls)) occupied).
  - apply IH.
  - intros H. injection H as <- _. apply drawnCell_inGrid.
Qed.

Lemma gridInvariant_board g g' :
  board g = board g' -> gridInvariant g -> gridInvariant g'.
Proof. unfold board, gridInvariant. intros H. injection H as _ <- _ _. auto. Qed.

Lemma gridInvariant_fresh g : freshBoard g -> gridInvariant g.
Proof.
  intros (_ & _ & _ & Hf). unfold gridInvariant.
  destruct Hf as [->|(fuel & calls & calls' & Hgen)].
  - reflexivity.
  - now apply generateFood_inGrid with fuel INITIAL_SNAKE calls calls'.
Qed.

Lemma gridInvariant_ticks fuel w today w' out :
  gridInvariant (gameState w) -> ticks fuel w today w' out ->
  gridInvariant (gameState w').
Proof.
  intros Hgrid Ht.
  destruct Ht as [_|first rest c _ _ _|first rest newFood calls _ _ _ _ Hgen
                 |first rest _ _ _ _]; unfold gridInvariant; auto.
  cbn [gameState withRandomCalls withGameState food withLevel withScore withFood].
  now apply generateFood_inGrid in Hgen.
Qed.

(** In a reachable state, stepping onto the food is no collision. *)
Lemma food_is_free w first :
  reachable w ->
  proposedHead (gameState w) first = food (gameState w) ->
  collision (proposedHead (gameState w) first) (snake (gameState w)) = None.
Proof.
  intros Hreach Heq.
  pose proof (reachable_keeps _ gridInvariant_board gridInvariant_fresh
                gridInvariant_ticks w Hreach) as Hgrid.
  pose proof (reachable_keeps _ foodInvariant_board foodInvariant_fresh
                foodInvariant_ticks w Hreach) as Hfood.
  unfold collision. rewrite Heq. unfold gridInvariant, inGrid in Hgrid.
  rewrite Hgrid. apply some_samePosition_false in Hfood. rewrite Hfood.
  reflexivity.
Qed.

End InRange.

(** ** The properties of the engine *)

(** C1. The cell [generateFood] returns is never a member of the occupied
    cells it was given, and it does return one as soon as a cell still to be
    drawn is free; so after every call of [gameLoop] in a reachable state,
    a food-eating one included, the food is not on the snake. *)
Theorem food_never_on_snake :
  (forall fuel occupied calls p calls',
     generateFood fuel occupied calls = Some (p, calls') -> ~ In p occupied) /\
  (forall occupied calls k,
     ~ In (drawnCell (calls + 2 * k)) occupied ->
     exists p calls',
       generateFood (S k) occupied calls = Some (p, calls') /\ ~ In p occupied) /\
  (forall fuel w today w' out,
     reachable w -> gameLoop fuel w today = Some (w', out) ->
     ~ In (food (gameState w')) (snake (gameState w'))).
Proof.
  split; [|split].
  - intros fuel occupied calls p calls' H.
    apply some_samePosition_false. now apply generateFood_free in H.
  - intros occupied calls k Hfree. apply some_samePosition_false in Hfree.
    destruct (generateFood_returns occupied k calls Hfree) as (p & calls' & H).
    exists p, calls'. split; [exact H|].
    apply some_samePosition_false. now apply generateFood_free in H.
  - intros fuel w today w' out Hreach Htick.
    apply (foodInvariant_ticks fuel w today w' out).
    + apply (reachable_keeps _ foodInvariant_board foodInvariant_fresh
               foodInvariant_ticks w Hreach).
    + now apply gameLoop_ticks.
Qed.

(** C2, as the code has it. [generateFood] makes no test of the size of the
    occupied set and has no outcome other than a cell: when a cell still to
    be drawn is free, the loop is left at the first such cell, with any fuel
    that reaches it, and that cell is returned. *)
Theorem generateFood_returns_first_free occupied calls k :
  ~ In (drawnCell (calls + 2 * k)) occupied ->
  exists j, (j <= k)%nat /\
    ~ In (drawnCell (calls + 2 * j)) occupied /\
    (forall i, (i < j)%nat -> In (drawnCell (calls + 2 * i)) occupied) /\
    forall fuel, (j < fuel)%nat ->
      generateFood fuel occupied calls =
      Some (drawnCell (calls + 2 * j), (calls + 2 * j + 2)%nat).
Proof.
  intros Hfree. apply some_samePosition_false in Hfree.
  destruct (first_free occupied calls k Hfree) as (j & Hj & Hjf & Hjb).
  exists j. split; [exact Hj|]. split; [now apply some_samePosition_false|].
  split.
  - intros i Hi. apply some_samePosition_true. now apply Hjb.
  - intros fuel Hfuel. now apply generateFood_first_free.
Qed.

(** C3. In every reachable state that is not game over the snake has no
    two equal cells and at least one cell, and every event keeps a snake
    that is so. *)
Theorem snake_never_overlaps :
  (forall w, reachable w -> gameOver (gameState w) = false ->
     NoDup (snake (gameState w)) /\ (1 <= List.length (snake (gameState w)))%nat) /\
  (forall fuel w e w' out,
     snakeInvariant (gameState w) -> step fuel w e = Some (w', out) ->
     snakeInvariant (gameState w')).
Proof.
  split.
  - intros w Hreach _.
    apply (reachable_keeps _ snakeInvariant_board snakeInvariant_fresh
             snakeInvariant_ticks w Hreach).
  - intros fuel w e w' out.
    apply (step_keeps _ snakeInvariant_board snakeInvariant_fresh
             snakeInvariant_ticks).
Qed.

(** C4. [gameLoop] tests the wall first and then the whole body as it is
    before the move, tail included: a running tick whose head lands on a
    cell of the body, be it the last one, ends the game. *)
Theorem body_collision_ends_game fuel w today first rest :
  lifecycle w = Running ->
  snake (gameState w) = first :: rest ->
  (hitsWall (proposedHead (gameState w) first) = true ->
   collision (proposedHead (gameState w) first) (snake (gameState w)) = Some Wall) /\
  (hitsWall (proposedHead (gameState w) first) = false ->
   In (proposedHead (gameState w) first) (snake (gameState w)) ->
   collision (proposedHead (gameState w) first) (snake (gameState w)) = Some Self) /\
  (In (proposedHead (gameState w) first) (snake (gameState w)) \/
   proposedHead (gameState w) first = last (snake (gameState w)) first ->
   exists w' out,
     gameLoop fuel w today = Some (w', out) /\ lifecycle w' = GameOver).
Proof.
  intros Hrun Hsnake. split; [|split].
  - intros Hwall. unfold collision. now rewrite Hwall.
  - intros Hwall Hin. unfold collision. rewrite Hwall.
    apply some_samePosition_true in Hin. now rewrite Hin.
  - intros Hhit.
    assert (Hin : In (proposedHead (gameState w) first) (snake (gameState w))).
    { destruct Hhit as [Hin|Hlast]; [exact Hin|]. rewrite Hlast, Hsnake.
      apply last_In. discriminate. }
    assert (Hcol : exists c, collision (proposedHead (gameState w) first)
                               (snake (gameState w)) = Some c).
    { unfold collision. destruct (hitsWall _); [eauto|].
      apply some_samePosition_true in Hin. rewrite Hin. eauto. }
    destruct Hcol as [c Hcol].
    exists (fst (endGame w today)), (snd (endGame w today)). split.
    + rewrite <- surjective_pairing.
      now apply gameLoop_collides with first rest c; [apply running_guard| |].
    + apply endGame_lifecycle. now apply lifecycle_Running in Hrun.
Qed.

(** C5, as the code has it. A running tick of a reachable game whose head
    lands on the food and whose food placement returns makes the snake one
    cell longer and the score 10 higher, and the placement returns as soon
    as a cell still to be drawn is off the snake with its new head; any
    other tick without a collision leaves the length of the snake as it
    was. *)
Theorem eating_grows_by_one fuel w today first rest :
  (forall n, 0 <= randomCoordinate n < GRID_SIZE) ->
  reachable w ->
  lifecycle w = Running ->
  snake (gameState w) = first :: rest ->
  (proposedHead (gameState w) first = food (gameState w) ->
   (forall w' out,
      gameLoop fuel w today = Some (w', out) ->
      List.length (snake (gameState w')) = S (List.length (snake (gameState w))) /\
      score (gameState w') = score (gameState w) + 10) /\
   (forall k,
      ~ In (drawnCell (randomCalls w + 2 * k))
           (proposedHead (gameState w) first :: snake (gameState w)) ->
      exists w',
        gameLoop (S k) w today = Some (w', []) /\
        List.length (snake (gameState w')) = S (List.length (snake (gameState w))) /\
        score (gameState w') = score (gameState w) + 10)) /\
  (proposedHead (gameState w) first <> food (gameState w) ->
   collision (proposedHead (gameState w) first) (snake (gameState w)) = None ->
   exists w',
     gameLoop fuel w today = Some (w', []) /\
     List.length (snake (gameState w')) = List.length (snake (gameState w)) /\
     score (gameState w') = score (gameState w)).
Proof.
  intros Hrange Hreach Hrun Hsnake. apply running_guard in Hrun. split.
  - intros Heq.
    pose proof (food_is_free Hrange w first Hreach Heq) as Hcol.
    split.
    + intros w' out Htick.
      destruct (generateFood fuel (proposedHead (gameState w) first :: snake (gameState w))
                  (randomCalls w)) as [[newFood calls]|] eqn:Hgen.
      * rewrite (gameLoop_eats fuel w today first rest newFood calls
                   Hrun Hsnake Hcol Heq Hgen) in Htick.
        injection Htick as <- _. split; reflexivity.
      * unfold gameLoop in Htick. rewrite Hrun, Hsnake in Htick.
        fold (proposedHead (gameState w) first) in Htick.
        rewrite <- Hsnake, Hcol, eats_test in Htick.
        assert (Heat : samePosition (food (gameState w))
                         (proposedHead (gameState w) first) = true)
          by now apply samePosition_true.
        rewrite Heat, Hgen in Htick. discriminate.
    + intros k Hfree. apply some_samePosition_false in Hfree.
      destruct (generateFood_returns _ k _ Hfree) as (newFood & calls & Hgen).
      eexists. split.
      * apply (gameLoop_eats (S k) w today first rest newFood calls
                 Hrun Hsnake Hcol Heq Hgen).
      * split; reflexivity.
  - intros Hne Hcol. eexists. split.
    + apply (gameLoop_moves fuel w today first rest Hrun Hsnake Hcol Hne).
    + cbn [gameState withGameState snake withSnake score].
      rewrite pop_cons_length. split; reflexivity.
Qed.

(** C6. A running tick whose head leaves the grid ends the game and hands
    exactly one record to [saveGameData]: the score and the level from
    before the collision, the date and the name of the difficulty; the
    record goes to the front of the stored history. *)
Theorem wall_collision_saves_one_record fuel w today first rest :
  lifecycle w = Running ->
  snake (gameState w) = first :: rest ->
  hitsWall (proposedHead (gameState w) first) = true ->
  exists w',
    gameLoop fuel w today = Some (w', [currentRecord w today]) /\
    lifecycle w' = GameOver /\
    GameRecord.score (currentRecord w today) = score (gameState w) /\
    GameRecord.level (currentRecord w today) = level (gameState w) /\
    GameRecord.date (currentRecord w today) = today /\
    GameRecord.difficulty (currentRecord w today) = name (DIFFICULTIES (difficulty w)) /\
    snakeGameHistory (localStorage w') =
      Some (slice0 10 (currentRecord w today :: gameHistory (gameState w))) /\
    snakeHighScore (localStorage w') =
      Some (Z.max (highScore (gameState w)) (score (gameState w))).
Proof.
  intros Hrun Hsnake Hwall.
  exists (fst (endGame w today)). split.
  - change [currentRecord w today] with (snd (endGame w today)).
    rewrite <- surjective_pairing.
    apply gameLoop_collides with first rest Wall;
      [now apply running_guard | exact Hsnake |].
    unfold collision. now rewrite Hwall.
  - split; [|repeat split].
    apply endGame_lifecycle. now apply lifecycle_Running in Hrun.
Qed.

(** C7. In every reachable state, and so after every tick and after a
    start, the level is the score divided by 100, rounded down, plus 1, and
    the score is a multiple of 10 that is not negative; a start leaves the
    score at 0 and the level at 1. *)
Theorem level_follows_score :
  (forall w, reachable w ->
     level (gameState w) = score (gameState w) / 100 + 1 /\
     0 <= score (gameState w) /\ score (gameState w) mod 10 = 0) /\
  (forall fuel w today w' out,
     reachable w -> gameLoop fuel w today = Some (w', out) ->
     level (gameState w') = score (gameState w') / 100 + 1 /\
     0 <= score (gameState w') /\ score (gameState w') mod 10 = 0) /\
  (forall fuel w w',
     startGame fuel w = Some w' ->
     score (gameState w') = 0 /\ level (gameState w') = 1).
Proof.
  assert (Hinv : forall w, reachable w -> scoreInvariant (gameState w)).
  { intros w. apply (reachable_keeps _ scoreInvariant_board scoreInvariant_fresh
                       scoreInvariant_ticks). }
  split; [|split].
  - exact Hinv.
  - intros fuel w today w' out Hreach Htick.
    apply (scoreInvariant_ticks fuel w today w' out (Hinv w Hreach)).
    now apply gameLoop_ticks.
  - intros fuel w w' Hstart.
    destruct (startGame_fresh fuel w w' Hstart) as (_ & Hs & Hl & _). now split.
Qed.

(** A key that asks for the opposite of the stored direction is dropped:
    the handler returns the component as it was, the event emits nothing,
    and the next tick is the tick that would have run without the key. *)
Theorem reversal_is_ignored fuel w key d today :
  In (key, d) reversals ->
  direction (gameState w) = d ->
  handleKeyPress w key = w /\
  step fuel w (KeyDown key) = Some (w, []) /\
  gameLoop fuel (handleKeyPress w key) today = gameLoop fuel w today /\
  direction (gameState (handleKeyPress w key)) = direction (gameState w).
Proof.
  intros Hin Hdir.
  assert (H : handleKeyPress w key = w).
  { unfold handleKeyPress.
    destruct (negb (gameStarted w) || gameOver (gameState w)); [reflexivity|].
    unfold reversals in Hin. simpl in Hin.
    destruct Hin as [E|[E|[E|[E|[]]]]]; injection E as <- <-; rewrite Hdir; reflexivity. }
  repeat split; simpl; now rewrite ?H.
Qed.

(** C9. [resetGame] takes any state to the idle one: snake, food, score,
    level and direction are those of the initial state, the game is neither
    over nor paused, and the history and the high score, in the state and
    in the storage, are left as they were. *)
Theorem reset_restores_initial_board w :
  lifecycle (resetGame w) = Idle /\
  snake (gameState (resetGame w)) = snake initialGameState /\
  food (gameState (resetGame w)) = food initialGameState /\
  score (gameState (resetGame w)) = score initialGameState /\
  level (gameState (resetGame w)) = level initialGameState /\
  direction (gameState (resetGame w)) = direction initialGameState /\
  gameOver (gameState (resetGame w)) = false /\
  paused (gameState (resetGame w)) = false /\
  gameHistory (gameState (resetGame w)) = gameHistory (gameState w) /\
  highScore (gameState (resetGame w)) = highScore (gameState w) /\
  localStorage (resetGame w) = localStorage w.
Proof. repeat split. Qed.

(** C10, as the code has it. A running tick that ends in a collision, with
    the wall or with the body, leaves snake, food, score and level, and also
    direction and pause, as they were before the tick and sets the game-over
    flag; the save it triggers sets the high score to the larger of the high
    score and the score, and puts the record of the game at the front of
    the history, kept to ten entries. *)
Theorem collision_keeps_the_board fuel w today first rest c :
  lifecycle w = Running ->
  snake (gameState w) = first :: rest ->
  collision (proposedHead (gameState w) first) (snake (gameState w)) = Some c ->
  exists w' out,
    gameLoop fuel w today = Some (w', out) /\
    snake (gameState w') = snake (gameState w) /\
    food (gameState w') = food (gameState w) /\
    score (gameState w') = score (gameState w) /\
    level (gameState w') = level (gameState w) /\
    direction (gameState w') = direction (gameState w) /\
    paused (gameState w') = paused (gameState w) /\
    gameOver (gameState w') = true /\
    highScore (gameState w') = Z.max (highScore (gameState w)) (score (gameState w)) /\
    gameHistory (gameState w') =
      slice0 10 (currentRecord w today :: gameHistory (gameState w)).
Proof.
  intros Hrun Hsnake Hcol.
  exists (fst (endGame w today)), (snd (endGame w today)). split.
  - rewrite <- surjective_pairing.
    now apply gameLoop_collides with first rest c; [apply running_guard| |].
  - repeat split.
Qed.

(** * More of the component

    ** Every event as a change *)

Lemma togglePause_changes fuel w : changes fuel w (togglePause w) [].
Proof.
  unfold togglePause.
  destruct (gameStarted w) eqn:Hs; [|apply changes_nothing].
  destruct (gameOver (gameState w)) eqn:Ho; [apply changes_nothing|].
  now apply changes_paused.
Qed.

Lemma handleKeyPress_changes fuel w key : changes fuel w (handleKeyPress w key) [].
Proof.
  unfold handleKeyPress.
  destruct (gameStarted w) eqn:Hs; [|apply changes_nothing].
  destruct (gameOver (gameState w)) eqn:Ho; [apply changes_nothing|].
  cbn [negb orb].
  repeat match goal with
         | |- context [if (key =? ?k)%string then _ else _] =>
             destruct (key =? k)%string
         | |- context [if negb ?b then _ else _] => destruct b; cbn [negb]
         end;
    try apply changes_nothing;
    try (apply changes_direction; [unfold directions; simpl; tauto | assumption | assumption]).
  apply togglePause_changes.
Qed.

Lemma intervalRunning_lifecycle w :
  intervalRunning w = true <-> lifecycle w = Running.
Proof.
  unfold intervalRunning, lifecycle.
  destruct (gameStarted w), (gameOver (gameState w)), (paused (gameState w));
    simpl; split; intros H; try reflexivity; discriminate H.
Qed.

Lemma step_changes fuel w e w' out :
  step fuel w e = Some (w', out) -> changes fuel w w' out.
Proof.
  destruct e as [today|key| | | |d]; simpl.
  - destruct (intervalRunning w) eqn:Hrun.
    + intros H. apply changes_tick with today.
      * now apply intervalRunning_lifecycle.
      * now apply gameLoop_ticks.
    + intros H. injection H as <- <-. apply changes_nothing.
  - intros H. injection H as <- <-. apply handleKeyPress_changes.
  - destruct (gameStarted w) eqn:Hs.
    + intros H. injection H as <- <-. apply changes_nothing.
    + destruct (startGame fuel w) as [w1|] eqn:E; simpl; [|discriminate].
      intros H. injection H as <- <-. now apply changes_start.
  - destruct (gameStarted w); intros H; injection H as <- <-;
      [apply togglePause_changes | apply changes_nothing].
  - intros H. injection H as <- <-. apply changes_reset.
  - intros H. injection H as <- <-. apply changes_difficulty.
Qed.

Lemma reachable_invariant (P : Component -> Prop) :
  (forall stored, P (mount stored)) ->
  (forall fuel w w' out, P w -> changes fuel w w' out -> P w') ->
  forall w, reachable w -> P w.
Proof.
  intros Hmount Hkeeps w Hreach.
  induction Hreach as [stored|fuel w e w' out _ IH Hstep].
  - apply Hmount.
  - apply (Hkeeps fuel w w' out IH). now apply step_changes with e.
Qed.

Lemma startGame_inv fuel w w' :
  startGame fuel w = Some w' ->
  exists newFood calls,
    generateFood fuel INITIAL_SNAKE (randomCalls w) = Some (newFood, calls) /\
    w' = withRandomCalls calls
           (withGameStarted true
              (withGameState
                 (mkGameState INITIAL_SNAKE newFood "RIGHT" false false 0 1
                    (highScore (gameState w)) (gameHistory (gameState w)))
                 w)).
Proof.
  unfold startGame.
  destruct (generateFood fuel INITIAL_SNAKE (randomCalls w)) as [[newFood calls]|];
    [|discriminate].
  intros H. injection H as <-. eauto.
Qed.

(** ** Where the snake is *)

Lemma pop_Forall {A : Type} (P : A -> Prop) (l : list A) :
  Forall P l -> Forall P (pop l).
Proof.
  rewrite !Forall_forall. intros H a Ha. apply H. now apply pop_incl.
Qed.

Lemma reachable_inGrid w :
  reachable w -> Forall inGrid (snake (gameState w)).
Proof.
  apply (reachable_keeps (fun g => Forall inGrid (snake g))).
  - unfold board. intros g g' H. injection H as <- _ _ _. auto.
  - intros g [Hs _]. rewrite Hs. repeat constructor.
  - intros fuel w0 today w' out Hin Ht.
    destruct Ht as [_|first rest c _ _ _|first rest newFood calls _ _ Hcol _ _
                   |first rest _ _ Hcol _]; auto.
    + apply collision_None in Hcol as [Hgrid _].
      cbn [gameState withRandomCalls withGameState snake withLevel withScore
             withFood withSnake]. now constructor.
    + apply collision_None in Hcol as [Hgrid _].
      cbn [gameState withGameState snake withSnake].
      apply pop_Forall. now constructor.
Qed.

(** The snake never leaves the grid: in every reachable state each of its
    cells passes the wall test. *)
Theorem snake_stays_in_grid w :
  reachable w -> Forall inGrid (snake (gameState w)).
Proof. exact (reachable_inGrid w). Qed.

Lemma reachable_score w :
  reachable w ->
  score (gameState w) = 10 * (Z.of_nat (List.length (snake (gameState w))) - 1).
Proof.
  apply (reachable_keeps
           (fun g => score g = 10 * (Z.of_nat (List.length (snake g)) - 1))).
  - unfold board. intros g g' H. injection H as <- _ <- _. auto.
  - intros g (Hs & Hscore & _). rewrite Hs, Hscore. reflexivity.
  - intros fuel w0 today w' out Hin Ht.
    destruct Ht as [_|first rest c _ _ _|first rest newFood calls _ _ _ _ _
                   |first rest _ _ _ _]; auto.
    + cbn [gameState withRandomCalls withGameState snake score withLevel
             withScore withFood withSnake].
      rewrite Hin. cbn [List.length]. lia.
    + cbn [gameState withGameState snake score withSnake].
      rewrite pop_cons_length. exact Hin.
Qed.

(** The score counts the food eaten: in every reachable state it is ten
    times the number of cells the snake has grown by. *)
Theorem score_counts_growth w :
  reachable w ->
  score (gameState w) = 10 * (Z.of_nat (List.length (snake (gameState w))) - 1).
Proof. exact (reachable_score w). Qed.

(** ** The shape of the snake *)

Lemma moveHead_adjacent d p : In d directions -> adjacent (moveHead d p) p.
Proof.
  unfold directions, adjacent.
  intros [<-|[<-|[<-|[<-|[]]]]]; cbn; lia.
Qed.

Lemma moveHead_unknown d p : ~ In d directions -> moveHead d p = p.
Proof.
  unfold directions, moveHead. intros H.
  repeat match goal with
         | |- context [if (d =? ?k)%string then _ else _] =>
             destruct (String.eqb_spec d k) as [->|_];
             [exfalso; apply H; simpl; tauto|]
         end.
  reflexivity.
Qed.

Lemma chain_pop l : chain l -> chain (pop l).
Proof.
  unfold pop. induction l as [|a l IH]; [auto|].
  destruct l as [|b l]; [auto|].
  intros [Hab Hl]. specialize (IH Hl).
  destruct l as [|c l]; [exact I|].
  change (removelast (a :: b :: c :: l)) with (a :: b :: removelast (c :: l)).
  change (removelast (b :: c :: l)) with (b :: removelast (c :: l)) in IH.
  split; [exact Hab | exact IH].
Qed.

(** In every reachable state the direction is one of the four, and each
    cell of the snake shares a side with the next. *)
Theorem snake_is_a_chain w :
  reachable w ->
  In (direction (gameState w)) directions /\ chain (snake (gameState w)).
Proof.
  apply (reachable_invariant
           (fun w => In (direction (gameState w)) directions /\
                     chain (snake (gameState w)))).
  - intros stored. unfold mount.
    destruct (snakeHighScore stored), (snakeGameHistory stored); simpl; tauto.
  - intros fuel w0 w' out [Hdir Hchain] Hch.
    destruct Hch as [|d Hd _ _|_ _|w' _ Hstart| |d|today w' out _ Ht]; auto.
    + apply startGame_inv in Hstart as (newFood & calls & _ & ->). simpl. tauto.
    + simpl. tauto.
    + destruct Ht as [_|first rest c _ _ _|first rest newFood calls _ Hsnake _ _ _
                     |first rest _ Hsnake _ _]; auto.
      * cbn [gameState withRandomCalls withGameState snake direction withLevel
               withScore withFood withSnake].
        split; [exact Hdir|]. rewrite Hsnake in *. split; [|exact Hchain].
        now apply moveHead_adjacent.
      * cbn [gameState withGameState snake direction withSnake].
        split; [exact Hdir|]. apply chain_pop. rewrite Hsnake in *.
        split; [|exact Hchain]. now apply moveHead_adjacent.
Qed.

(** ** The lifecycle and the events *)

Lemma lifecycle_Idle w : lifecycle w = Idle <-> gameStarted w = false.
Proof.
  unfold lifecycle.
  destruct (gameStarted w), (gameOver (gameState w)), (paused (gameState w));
    simpl; split; intros H; try reflexivity; discriminate H.
Qed.

Lemma lifecycle_GameOver w :
  lifecycle w = GameOver <->
  gameStarted w = true /\ gameOver (gameState w) = true.
Proof.
  unfold lifecycle.
  destruct (gameStarted w), (gameOver (gameState w)), (paused (gameState w));
    simpl; split; try discriminate; try tauto; intros [? ?]; discriminate.
Qed.

(** Before the start and after the end of a game, ticks, keys and the pause
    button leave the component as it is and emit nothing; after the end the
    start button does so too. *)
Theorem no_play_outside_a_game fuel w :
  lifecycle w = Idle \/ lifecycle w = GameOver ->
  (forall today, step fuel w (Tick today) = Some (w, [])) /\
  (forall key, step fuel w (KeyDown key) = Some (w, [])) /\
  step fuel w ClickPause = Some (w, []) /\
  (lifecycle w = GameOver -> step fuel w ClickStart = Some (w, [])).
Proof.
  intros [H|H].
  - apply lifecycle_Idle in H. unfold step, intervalRunning, handleKeyPress.
    rewrite H. repeat split. intros H'. apply lifecycle_GameOver in H' as [H' _].
    congruence.
  - apply lifecycle_GameOver in H as [Hs Ho].
    unfold step, intervalRunning, handleKeyPress, togglePause.
    rewrite Hs, Ho. repeat split.
Qed.

Lemma ticks_records fuel w today w' out :
  lifecycle w = Running -> ticks fuel w today w' out ->
  (out = [] /\ lifecycle w' = Running) \/
  (out = [currentRecord w today] /\ lifecycle w' = GameOver).
Proof.
  intros Hrun Ht. pose proof Hrun as Hrun'.
  apply lifecycle_Running in Hrun' as (Hs & Ho & Hp).
  destruct Ht as [_|first rest c _ _ _|first rest newFood calls _ _ _ _ _
                 |first rest _ _ _ _].
  - left. now split.
  - right. split; [reflexivity | now apply endGame_lifecycle].
  - left. split; [reflexivity|]. unfold lifecycle. simpl. now rewrite Hs, Ho, Hp.
  - left. split; [reflexivity|]. unfold lifecycle. simpl. now rewrite Hs, Ho, Hp.
Qed.

Lemma changes_not_over fuel w w' :
  changes fuel w w' [] -> lifecycle w <> GameOver -> lifecycle w' <> GameOver.
Proof.
  intros Hch Hw Hw'. apply lifecycle_GameOver in Hw' as [Hs' Ho'].
  remember [] as out eqn:Hout.
  destruct Hch as [|d _ Hs Ho|Hs Ho|w' _ Hstart| |d|today w' out Hrun Ht];
    simpl in *; try congruence.
  - apply Hw. now apply lifecycle_GameOver.
  - apply startGame_inv in Hstart as (newFood & calls & _ & ->). discriminate Ho'.
  - apply Hw. now apply lifecycle_GameOver.
  - destruct (ticks_records fuel w today w' out Hrun Ht) as [[_ H]|[H _]].
    + assert (lifecycle w' = GameOver) by now apply lifecycle_GameOver.
      congruence.
    + subst out. discriminate H.
Qed.

(** A record is emitted exactly by the ticks that take a running game to
    game over, one for each: any other event emits nothing and ends no
    game. *)
Theorem record_marks_game_over fuel w e w' out :
  step fuel w e = Some (w', out) ->
  (out = [] /\ (lifecycle w <> GameOver -> lifecycle w' <> GameOver)) \/
  (exists today,
     e = Tick today /\ lifecycle w = Running /\ lifecycle w' = GameOver /\
     out = [currentRecord w today]).
Proof.
  intros Hstep. pose proof (step_changes _ _ _ _ _ Hstep) as Hch.
  destruct e as [today|key| | | |d]; simpl in Hstep.
  - destruct (intervalRunning w) eqn:Hrun.
    + apply intervalRunning_lifecycle in Hrun.
      apply gameLoop_ticks in Hstep.
      destruct (ticks_records fuel w today w' out Hrun Hstep) as [[-> H]|[-> H]].
      * left. split; [reflexivity|]. intros _. congruence.
      * right. exists today. auto.
    + injection Hstep as <- <-. left. split; [reflexivity | auto].
  - injection Hstep as <- <-. left. split; [reflexivity|].
    now apply changes_not_over with fuel.
  - destruct (gameStarted w).
    + injection Hstep as <- <-. left. split; [reflexivity | auto].
    + destruct (startGame fuel w) as [w1|]; simpl in Hstep; [|discriminate].
      assert (out = []) by congruence. subst out.
      left. split; [reflexivity|]. now apply changes_not_over with fuel.
  - assert (out = []) by (destruct (gameStarted w); congruence). subst out.
    left. split; [reflexivity|]. now apply changes_not_over with fuel.
  - injection Hstep as <- <-. left. split; [reflexivity|].
    intros _ H. apply lifecycle_GameOver in H as [H _]. discriminate H.
  - injection Hstep as <- <-. left. split; [reflexivity | auto].
Qed.

(** ** Pause *)

(** Pausing a running game shows it paused and stops the ticks; pausing
    again gives back the very state that was paused. *)
Theorem pause_then_resume fuel w :
  lifecycle w = Running ->
  lifecycle (togglePause w) = Paused /\
  (forall today, step fuel (togglePause w) (Tick today) = Some (togglePause w, [])) /\
  togglePause (togglePause w) = w.
Proof.
  intros H. apply lifecycle_Running in H as (Hs & Ho & Hp).
  destruct w as [[sn fo di ov pa sc le hi hs] df st ls rc]. simpl in *. subst.
  repeat split.
Qed.

(** ** Turns *)

(** In a started game that is not over, paused or not, an arrow key that
    does not ask for the opposite of the stored direction replaces the
    direction and nothing else. *)
Theorem turn_is_taken w key d o :
  gameStarted w = true ->
  gameOver (gameState w) = false ->
  In (key, d) arrows ->
  In (key, o) reversals ->
  direction (gameState w) <> o ->
  handleKeyPress w key = withGameState (withDirection d (gameState w)) w.
Proof.
  intros Hs Ho Hd Hrev Hne. unfold handleKeyPress. rewrite Hs, Ho. cbn [negb orb].
  assert (Hdir : (direction (gameState w) =? o)%string = false)
    by now apply String.eqb_neq.
  unfold arrows in Hd. unfold reversals in Hrev. simpl in Hd, Hrev.
  destruct Hd as [E|[E|[E|[E|[]]]]]; injection E as <- <-;
    destruct Hrev as [E|[E|[E|[E|[]]]]]; try discriminate E;
    injection E as <-; rewrite Hdir; reflexivity.
Qed.

Lemma self_hit_ends_game fuel w today first rest :
  lifecycle w = Running ->
  snake (gameState w) = first :: rest ->
  In (proposedHead (gameState w) first) (snake (gameState w)) ->
  exists w',
    gameLoop fuel w today = Some (w', [currentRecord w today]) /\
    lifecycle w' = GameOver.
Proof.
  intros Hrun Hsnake Hin.
  assert (Hcol : exists c, collision (proposedHead (gameState w) first)
                             (snake (gameState w)) = Some c).
  { unfold collision. destruct (hitsWall _); [eauto|].
    apply some_samePosition_true in Hin. rewrite Hin. eauto. }
  destruct Hcol as [c Hcol].
  exists (fst (endGame w today)). split.
  - change [currentRecord w today] with (snd (endGame w today)).
    rewrite <- surjective_pairing.
    now apply gameLoop_collides with first rest c; [apply running_guard| |].
  - apply endGame_lifecycle. now apply lifecycle_Running in Hrun.
Qed.

(** Two keys between two ticks turn the snake round: the first turns away
    from the direction, the second is then no longer the opposite of the
    stored direction and is taken.  If the cell behind the head is on the
    snake, the next tick ends the game. *)
Theorem quick_turns_reverse fuel w today d k1 k2 o first rest :
  lifecycle w = Running ->
  snake (gameState w) = first :: rest ->
  direction (gameState w) = d ->
  In (d, k1, k2, o) quickTurns ->
  direction (gameState (handleKeyPress (handleKeyPress w k1) k2)) = o /\
  (In (moveHead o first) (snake (gameState w)) ->
   exists w',
     gameLoop fuel (handleKeyPress (handleKeyPress w k1) k2) today
     = Some (w', [currentRecord w today]) /\
     lifecycle w' = GameOver).
Proof.
  intros Hrun Hsnake Hdir Hq. pose proof Hrun as Hrun'.
  apply lifecycle_Running in Hrun' as (Hs & Ho & Hp).
  assert (Hkeys : handleKeyPress (handleKeyPress w k1) k2 =
                  withGameState (withDirection o (gameState w)) w).
  { unfold quickTurns in Hq. simpl in Hq.
    destruct w as [[sn fo di ov pa sc le hi hs] df st ls rc]. simpl in *. subst.
    destruct Hq as [E|[E|[E|[E|[E|[E|[E|[E|[]]]]]]]]];
      injection E as <- <- <- <-; reflexivity. }
  rewrite Hkeys. split; [reflexivity|].
  intros Hin.
  apply (self_hit_ends_game fuel (withGameState (withDirection o (gameState w)) w)
           today first rest).
  - unfold lifecycle. simpl. now rewrite Hs, Ho, Hp.
  - exact Hsnake.
  - exact Hin.
Qed.

(** A direction that is none of the four moves the head nowhere, so the
    tick finds the head on the snake and ends the game. *)
Theorem unknown_direction_ends_game fuel w today first rest :
  lifecycle w = Running ->
  snake (gameState w) = first :: rest ->
  ~ In (direction (gameState w)) directions ->
  proposedHead (gameState w) first = first /\
  exists w',
    gameLoop fuel w today = Some (w', [currentRecord w today]) /\
    lifecycle w' = GameOver.
Proof.
  intros Hrun Hsnake Hdir.
  assert (H : proposedHead (gameState w) first = first)
    by now apply moveHead_unknown.
  split; [exact H|].
  apply self_hit_ends_game with first rest; auto.
  rewrite H, Hsnake. now left.
Qed.

(** ** High score and history over a sequence of events *)

Lemma changes_scores fuel w w' out :
  changes fuel w w' out ->
  (out = [] /\
   highScore (gameState w') = highScore (gameState w) /\
   gameHistory (gameState w') = gameHistory (gameState w)) \/
  (exists r, out = [r] /\
   highScore (gameState w') = Z.max (highScore (gameState w)) (GameRecord.score r) /\
   gameHistory (gameState w') = slice0 10 (r :: gameHistory (gameState w))).
Proof.
  intros Hch.
  destruct Hch as [|d _ _ _|_ _|w' _ Hstart| |d|today w' out _ Ht];
    try (left; repeat split; reflexivity).
  - apply startGame_inv in Hstart as (newFood & calls & _ & ->).
    left. repeat split.
  - destruct Ht as [_|first rest c _ _ _|first rest newFood calls _ _ _ _ _
                   |first rest _ _ _ _];
      try (left; repeat split; reflexivity).
    right. exists (currentRecord w today). repeat split.
Qed.

Lemma firstn_app_firstn {A : Type} (n : nat) (l1 l2 : list A) :
  firstn n (l1 ++ firstn n l2) = firstn n (l1 ++ l2).
Proof.
  rewrite !firstn_app, firstn_firstn. f_equal. f_equal. lia.
Qed.

(** After a sequence of events the history is what it was when no game
    ended, and otherwise the records of the games that ended, the latest
    first, followed by the old history, cut to ten entries. *)
Theorem history_keeps_latest_ten fuel events : forall w w' out,
  run fuel w events = Some (w', out) ->
  gameHistory (gameState w') =
    match out with
    | [] => gameHistory (gameState w)
    | _ :: _ => firstn 10 (rev out ++ gameHistory (gameState w))
    end /\
  (out <> [] -> (List.length (gameHistory (gameState w')) <= 10)%nat).
Proof.
  assert (Hmain : forall w w' out,
    run fuel w events = Some (w', out) ->
    gameHistory (gameState w') =
      match out with
      | [] => gameHistory (gameState w)
      | _ :: _ => firstn 10 (rev out ++ gameHistory (gameState w))
      end).
  { induction events as [|e events IH]; intros w w' out; simpl.
    - intros H. injection H as <- <-. reflexivity.
    - destruct (step fuel w e) as [[w1 out1]|] eqn:Hstep; [|discriminate].
      destruct (run fuel w1 events) as [[w2 out2]|] eqn:Hrun; [|discriminate].
      intros H. injection H as <- <-.
      rewrite (IH w1 w2 out2 Hrun).
      apply step_changes, changes_scores in Hstep.
      destruct Hstep as [(-> & _ & ->)|(r & -> & _ & ->)]; [reflexivity|].
      unfold slice0. cbn [app rev].
      destruct out2 as [|r2 out2]; [reflexivity|].
      rewrite firstn_app_firstn, <- app_assoc. reflexivity. }
  intros w w' out Hrun. split; [now apply Hmain|].
  intros Hout. rewrite (Hmain w w' out Hrun).
  destruct out as [|r out]; [congruence|]. apply firstn_le_length.
Qed.

(** After a sequence of events the high score is the largest of the old
    high score and the scores of the games that ended. *)
Theorem high_score_is_the_maximum fuel events : forall w w' out,
  run fuel w events = Some (w', out) ->
  highScore (gameState w') =
    fold_left Z.max (map GameRecord.score out) (highScore (gameState w)) /\
  highScore (gameState w) <= highScore (gameState w') /\
  Forall (fun r => GameRecord.score r <= highScore (gameState w')) out.
Proof.
  induction events as [|e events IH]; intros w w' out; simpl.
  - intros H. injection H as <- <-. simpl. repeat split; [lia | constructor].
  - destruct (step fuel w e) as [[w1 out1]|] eqn:Hstep; [|discriminate].
    destruct (run fuel w1 events) as [[w2 out2]|] eqn:Hrun; [|discriminate].
    intros H. injection H as <- <-.
    destruct (IH w1 w2 out2 Hrun) as (Heq & Hle & Hall).
    rewrite map_app, fold_left_app.
    apply step_changes, changes_scores in Hstep.
    destruct Hstep as [(-> & Hh & _)|(r & -> & Hh & _)].
    + simpl. rewrite <- Hh. repeat split; [exact Heq | lia | exact Hall].
    + simpl. rewrite <- Hh. repeat split; [exact Heq | lia |].
      constructor; [lia | exact Hall].
Qed.

(** ** Fuel *)

Lemma generateFood_more_fuel fuel occupied : forall calls fuel' r,
  generateFood fuel occupied calls = Some r -> (fuel <= fuel')%nat ->
  generateFood fuel' occupied calls = Some r.
Proof.
  induction fuel as [|fuel IH]; intros calls fuel' r; [discriminate|].
  intros H Hle. destruct fuel' as [|fuel']; [lia|].
  cbn [generateFood] in *. fold (drawnCell calls) in *.
  destruct (some (samePosition (drawnCell calls)) occupied); [|exact H].
  apply IH; [exact H | lia].
Qed.

Lemma gameLoop_more_fuel fuel fuel' w today r :
  gameLoop fuel w today = Some r -> (fuel <= fuel')%nat ->
  gameLoop fuel' w today = Some r.
Proof.
  unfold gameLoop. intros H Hle.
  destruct (gameOver (gameState w) || paused (gameState w)); [exact H|].
  destruct (snake (gameState w)) as [|first rest]; [exact H|].
  destruct (collision _ _); [exact H|].
  destruct (_ && _); [|exact H].
  destruct (generateFood fuel _ _) as [[newFood calls]|] eqn:Hgen; [|discriminate].
  now rewrite (generateFood_more_fuel _ _ _ _ _ Hgen Hle).
Qed.

Lemma step_more_fuel fuel fuel' w e r :
  step fuel w e = Some r -> (fuel <= fuel')%nat -> step fuel' w e = Some r.
Proof.
  destruct e as [today|key| | | |d]; simpl; auto.
  - destruct (intervalRunning w); [|auto]. apply gameLoop_more_fuel.
  - destruct (gameStarted w); [auto|]. unfold startGame.
    destruct (generateFood fuel _ _) as [[newFood calls]|] eqn:Hgen; [|discriminate].
    intros H Hle. now rewrite (generateFood_more_fuel _ _ _ _ _ Hgen Hle).
Qed.

(** What a sequence of events leads to does not hang on the fuel: once the
    fuel is enough for every food placement on the way, more fuel gives the
    same component and the same records. *)
Theorem more_fuel_same_game fuel fuel' events : forall w r,
  run fuel w events = Some r -> (fuel <= fuel')%nat ->
  run fuel' w events = Some r.
Proof.
  induction events as [|e events IH]; intros w r; simpl; [auto|].
  destruct (step fuel w e) as [[w1 out1]|] eqn:Hstep; [|discriminate].
  destruct (run fuel w1 events) as [[w2 out2]|] eqn:Hrun; [|discriminate].
  intros H Hle.
  rewrite (step_more_fuel _ _ _ _ _ Hstep Hle), (IH _ _ Hrun Hle). exact H.
Qed.

(** ** The board that is drawn *)

Lemma gridIndices_In z : In z gridIndices <-> 0 <= z < GRID_SIZE.
Proof.
  unfold gridIndices, GRID_SIZE. rewrite in_map_iff. split.
  - intros [n [<- Hn]]. apply in_seq in Hn. simpl in Hn. lia.
  - intros Hz. exists (Z.to_nat z). split; [lia|]. apply in_seq. simpl. lia.
Qed.

Lemma inGrid_bounds p :
  inGrid p <-> 0 <= x p < GRID_SIZE /\ 0 <= y p < GRID_SIZE.
Proof.
  unfold inGrid, hitsWall. rewrite !orb_false_iff. lia.
Qed.

Lemma cellClass_injective k k' : cellClass k = cellClass k' -> k = k'.
Proof. destruct k, k'; intros H; try reflexivity; discriminate H. Qed.

(** [renderGameBoard] draws each cell of the grid once, 400 in all, and
    gives the cell in column [x p] of row [y p] the class of its kind; class
    names of different kinds differ. *)
Theorem board_has_every_cell_once g :
  List.length (renderGameBoard g) = 400%nat /\
  NoDup (map fst (renderGameBoard g)) /\
  (forall p c,
     In (p, c) (renderGameBoard g) <->
     inGrid p /\ c = cellClass (cellKind g (x p) (y p))) /\
  (forall k k', cellClass k = cellClass k' -> k = k').
Proof.
  split; [|split; [|split]].
  - unfold renderGameBoard. rewrite length_flat_map.
    erewrite map_ext; [|intros cy; apply length_map].
    reflexivity.
  - assert (E : map fst (renderGameBoard g) =
                map (fun n => mkPosition (Z.of_nat (Nat.modulo n 20))
                                         (Z.of_nat (Nat.div n 20)))
                    (seq 0 400)).
    { unfold renderGameBoard. rewrite flat_map_concat_map, concat_map, map_map.
      erewrite map_ext; [|intros cy; rewrite map_map; cbn [fst]; reflexivity].
      reflexivity. }
    rewrite E. apply NoDup_map_NoDup_ForallPairs; [|apply seq_NoDup].
    intros n m _ _ H.
    pose proof (f_equal x H) as Hmod. pose proof (f_equal y H) as Hdiv.
    cbn [x y] in Hmod, Hdiv. apply Nat2Z.inj in Hmod, Hdiv.
    rewrite (Nat.div_mod_eq n 20), (Nat.div_mod_eq m 20). congruence.
  - intros p c. unfold renderGameBoard. rewrite in_flat_map. split.
    + intros (cy & Hcy & Hin). apply in_map_iff in Hin as (cx & Heq & Hcx).
      injection Heq as <- <-. apply gridIndices_In in Hcy, Hcx.
      split; [now apply inGrid_bounds | reflexivity].
    + intros [Hgrid ->]. apply inGrid_bounds in Hgrid as [Hx Hy].
      exists (y p). split; [now apply gridIndices_In|].
      apply in_map_iff. exists (x p). split; [|now apply gridIndices_In].
      destruct p; reflexivity.
  - exact cellClass_injective.
Qed.

Lemma isSnakeBody_true g cx cy :
  isSnakeBody g cx cy = true <-> In (mkPosition cx cy) (tl (snake g)).
Proof. apply (some_samePosition_true (mkPosition cx cy)). Qed.

Lemma isSnakeHead_true g cx cy :
  isSnakeHead g cx cy = true <-> hd_error (snake g) = Some (mkPosition cx cy).
Proof.
  unfold isSnakeHead. destruct (snake g) as [|first rest]; simpl.
  - split; discriminate.
  - rewrite (samePosition_true (mkPosition cx cy) first). split; congruence.
Qed.

Lemma isFood_true g cx cy :
  isFood g cx cy = true <-> food g = mkPosition cx cy.
Proof. apply (samePosition_true (mkPosition cx cy) (food g)). Qed.

(** In every reachable state the board shows the game: the head cell is
    the first cell of the snake, the body cells are the other cells of the
    snake, the food cell is the food, which no part of the snake hides, and
    the empty cells are all the others. *)
Theorem board_shows_the_game w cx cy :
  reachable w ->
  (cellKind (gameState w) cx cy = HeadCell <->
   hd_error (snake (gameState w)) = Some (mkPosition cx cy)) /\
  (cellKind (gameState w) cx cy = BodyCell <->
   In (mkPosition cx cy) (tl (snake (gameState w)))) /\
  (cellKind (gameState w) cx cy = FoodCell <->
   food (gameState w) = mkPosition cx cy) /\
  (cellKind (gameState w) cx cy = EmptyCell <->
   ~ In (mkPosition cx cy) (snake (gameState w)) /\
   food (gameState w) <> mkPosition cx cy).
Proof.
  intros Hreach.
  pose proof (reachable_keeps _ snakeInvariant_board snakeInvariant_fresh
                snakeInvariant_ticks w Hreach) as [Hnodup _].
  pose proof (reachable_keeps _ foodInvariant_board foodInvariant_fresh
                foodInvariant_ticks w Hreach) as Hfood.
  unfold foodInvariant in Hfood.
  pose proof (isSnakeHead_true (gameState w) cx cy) as Hh.
  pose proof (isSnakeBody_true (gameState w) cx cy) as Hb.
  pose proof (isFood_true (gameState w) cx cy) as Hf.
  assert (Hparts : In (mkPosition cx cy) (snake (gameState w)) <->
                   hd_error (snake (gameState w)) = Some (mkPosition cx cy) \/
                   In (mkPosition cx cy) (tl (snake (gameState w)))).
  { destruct (snake (gameState w)) as [|first rest]; simpl.
    - split; [tauto | intros [H|H]; [discriminate H | exact H]].
    - split; intros [H|H]; auto; [left | left]; congruence. }
  assert (Hapart : hd_error (snake (gameState w)) = Some (mkPosition cx cy) ->
                   ~ In (mkPosition cx cy) (tl (snake (gameState w)))).
  { destruct (snake (gameState w)) as [|first rest]; simpl; [discriminate|].
    intros H. injection H as ->. now inversion Hnodup. }
  assert (Hoff : food (gameState w) = mkPosition cx cy ->
                 ~ In (mkPosition cx cy) (snake (gameState w))).
  { intros <-. exact Hfood. }
  unfold cellKind.
  destruct (isSnakeHead _ cx cy), (isSnakeBody _ cx cy), (isFood _ cx cy);
    repeat split; intros;
    try discriminate; try reflexivity;
    intuition (try discriminate; try congruence).
Qed.

(** With draws that are coordinates of the grid, the food of every
    reachable state lies in the grid and is drawn on the board as food. *)
Theorem food_is_on_the_board w :
  (forall n, 0 <= randomCoordinate n < GRID_SIZE) ->
  reachable w ->
  inGrid (food (gameState w)) /\
  In (food (gameState w), cellClass FoodCell) (renderGameBoard (gameState w)).
Proof.
  intros Hrange Hreach.
  pose proof (reachable_keeps _ gridInvariant_board (gridInvariant_fresh Hrange)
                (gridInvariant_ticks Hrange) w Hreach) as Hgrid.
  pose proof (reachable_keeps _ snakeInvariant_board snakeInvariant_fresh
                snakeInvariant_ticks w Hreach) as [Hnodup _].
  pose proof (reachable_keeps _ foodInvariant_board foodInvariant_fresh
                foodInvariant_ticks w Hreach) as Hfood.
  unfold gridInvariant in Hgrid. unfold foodInvariant in Hfood.
  split; [exact Hgrid|].
  unfold renderGameBoard. apply in_flat_map.
  apply inGrid_bounds in Hgrid as [Hx Hy].
  exists (y (food (gameState w))). split; [now apply gridIndices_In|].
  apply in_map_iff. exists (x (food (gameState w))).
  split; [|now apply gridIndices_In].
  assert (Hkind : cellKind (gameState w) (x (food (gameState w)))
                    (y (food (gameState w))) = FoodCell).
  { unfold cellKind.
    assert (Hp : mkPosition (x (food (gameState w))) (y (food (gameState w)))
                 = food (gameState w)) by (destruct (food (gameState w)); reflexivity).
    destruct (isSnakeHead _ _ _) eqn:Hh.
    - exfalso. apply isSnakeHead_true in Hh. rewrite Hp in Hh. apply Hfood.
      destruct (snake (gameState w)); [discriminate|]. injection Hh as ->. now left.
    - destruct (isSnakeBody _ _ _) eqn:Hb.
      + exfalso. apply isSnakeBody_true in Hb. rewrite Hp in Hb. apply Hfood.
        destruct (snake (gameState w)); [destruct Hb | now right].
      + destruct (isFood _ _ _) eqn:Hf; [reflexivity|].
        assert (isFood (gameState w) (x (food (gameState w)))
                  (y (food (gameState w))) = true)
          by (apply isFood_true; now rewrite Hp).
        congruence. }
  rewrite Hkind. destruct (food (gameState w)); reflexivity.
Qed.

End Engine.

(** * A game played out

    The engine on a fixed sequence of draws: the game of the examples
    below starts with the food right of the snake, and the next two foods
    appear in front of the head. *)

Definition demoCoordinate (n : nat) : Z :=
  nth n [11; 10; 12; 10; 13; 10] (Z.of_nat (Nat.modulo n 20)).

Definition demoDay : string := "2025-03-01".

Definition demoMounted : Component := mount (mkStorage None None).

(** After the start button. *)
Definition demoStarted : Component :=
  mkComponent
    (mkGameState [mkPosition 10 10] (mkPosition 11 10) "RIGHT" false false 0 1 0 [])
    medium true (mkStorage None None) 2.

(** After the start button and one tick: the first food is eaten. *)
Definition demoFed : Component :=
  mkComponent
    (mkGameState [mkPosition 11 10; mkPosition 10 10] (mkPosition 12 10)
       "RIGHT" false false 10 1 0 [])
    medium true (mkStorage None None) 4.

(** After the start button, the up key and ten ticks: the head is in the
    top row and looks up. *)
Definition demoAtWall : Component :=
  mkComponent
    (mkGameState [mkPosition 10 0] (mkPosition 11 10) "UP" false false 0 1 0 [])
    medium true (mkStorage None None) 2.

(** After three foods, a turn up, a turn left and the down key: the snake
    lies in a square and the head looks at the tail. *)
Definition demoChasing : Component :=
  mkComponent
    (mkGameState
       [mkPosition 12 9; mkPosition 13 9; mkPosition 13 10; mkPosition 12 10]
       (mkPosition 6 7) "DOWN" false false 30 1 0 [])
    medium true (mkStorage None None) 8.

(** A snake that lies on every cell of the grid, row after row, each row
    walked against the one before. *)
Definition gridLine : list Z := map Z.of_nat (seq 0 20).

Definition fullBoard : list Position :=
  flat_map
    (fun row =>
       map (fun column => mkPosition column row)
         (if Z.even row then gridLine else rev gridLine))
    gridLine.

Lemma demoCoordinate_range n : 0 <= demoCoordinate n < GRID_SIZE.
Proof.
  unfold demoCoordinate, GRID_SIZE.
  destruct (nth_in_or_default n [11; 10; 12; 10; 13; 10]
              (Z.of_nat (Nat.modulo n 20))) as [H|H].
  - revert H. generalize (nth n [11; 10; 12; 10; 13; 10] (Z.of_nat (Nat.modulo n 20))).
    intros z H. simpl in H. intuition lia.
  - rewrite H. pose proof (Nat.mod_upper_bound n 20 ltac:(lia)). lia.
Qed.

Lemma demoStarted_run :
  run demoCoordinate 1 demoMounted [ClickStart] = Some (demoStarted, []).
Proof. reflexivity. Qed.

Lemma demoAtWall_run :
  run demoCoordinate 1 demoMounted
    (ClickStart :: KeyDown "ArrowUp" :: repeat (Tick demoDay) 10)
  = Some (demoAtWall, []).
Proof. vm_compute. reflexivity. Qed.

Lemma demoChasing_run :
  run demoCoordinate 1 demoMounted
    [ClickStart; Tick demoDay; Tick demoDay; Tick demoDay;
     KeyDown "ArrowUp"; Tick demoDay; KeyDown "ArrowLeft"; Tick demoDay;
     KeyDown "ArrowDown"]
  = Some (demoChasing, []).
Proof. vm_compute. reflexivity. Qed.

Lemma demoStarted_reachable : reachable demoCoordinate demoStarted.
Proof.
  eapply reachable_run; [|exact demoStarted_run].
  unfold demoMounted. apply reachable_mount.
Qed.

Lemma demoAtWall_reachable : reachable demoCoordinate demoAtWall.
Proof.
  eapply reachable_run; [|exact demoAtWall_run].
  unfold demoMounted. apply reachable_mount.
Qed.

Lemma demoChasing_reachable : reachable demoCoordinate demoChasing.
Proof.
  eapply reachable_run; [|exact demoChasing_run].
  unfold demoMounted. apply reachable_mount.
Qed.

Lemma gridLine_In z : 0 <= z < GRID_SIZE -> In z gridLine /\ In z (rev gridLine).
Proof.
  unfold GRID_SIZE. intros Hz.
  assert (H : In z gridLine).
  { unfold gridLine. rewrite <- (Z2Nat.id z) by lia.
    apply in_map, in_seq. lia. }
  split; [exact H | now apply in_rev in H].
Qed.

Lemma fullBoard_covers p : inGrid p -> In p fullBoard.
Proof.
  unfold inGrid, hitsWall. intros H.
  apply orb_false_elim in H as [H Hy2]. apply orb_false_elim in H as [H Hy1].
  apply orb_false_elim in H as [Hx1 Hx2].
  assert (Hx : 0 <= x p < GRID_SIZE) by lia.
  assert (Hy : 0 <= y p < GRID_SIZE) by lia.
  unfold fullBoard. apply in_flat_map. exists (y p).
  split; [apply (gridLine_In _ Hy)|].
  destruct p as [px py]. simpl in *.
  apply (in_map (fun column => mkPosition column py)).
  destruct (Z.even py); apply (gridLine_In _ Hx).
Qed.

Lemma demoFed_tick :
  gameLoop demoCoordinate 1 demoStarted demoDay = Some (demoFed, []).
Proof. vm_compute. reflexivity. Qed.

Lemma first_draw_free : ~ In (drawnCell demoCoordinate 0) INITIAL_SNAKE.
Proof. intros [H|[]]. discriminate H. Qed.

(** ** The properties on the game played out *)

Lemma food_never_on_snake_demo :
  (generateFood demoCoordinate 1 INITIAL_SNAKE 0 = Some (mkPosition 11 10, 2%nat) /\
   ~ In (mkPosition 11 10) INITIAL_SNAKE) /\
  (exists p calls',
     generateFood demoCoordinate 1 INITIAL_SNAKE 0 = Some (p, calls') /\
     ~ In p INITIAL_SNAKE) /\
  (gameLoop demoCoordinate 1 demoStarted demoDay = Some (demoFed, []) /\
   ~ In (food (gameState demoFed)) (snake (gameState demoFed))).
Proof.
  destruct (food_never_on_snake demoCoordinate) as (Hfree & Hreturns & Htick).
  split; [|split].
  - split; [reflexivity|].
    apply (Hfree 1%nat INITIAL_SNAKE 0%nat (mkPosition 11 10) 2%nat). reflexivity.
  - apply (Hreturns INITIAL_SNAKE 0%nat 0%nat). exact first_draw_free.
  - split; [exact demoFed_tick|].
    apply (Htick 1%nat demoStarted demoDay demoFed []).
    + exact demoStarted_reachable.
    + exact demoFed_tick.
Defined.

Lemma generateFood_returns_first_free_demo :
  exists j, (j <= 0)%nat /\
    ~ In (drawnCell demoCoordinate (0 + 2 * j)) INITIAL_SNAKE /\
    (forall i, (i < j)%nat -> In (drawnCell demoCoordinate (0 + 2 * i)) INITIAL_SNAKE) /\
    forall fuel, (j < fuel)%nat ->
      generateFood demoCoordinate fuel INITIAL_SNAKE 0 =
      Some (drawnCell demoCoordinate (0 + 2 * j), (0 + 2 * j + 2)%nat).
Proof.
  apply (generateFood_returns_first_free demoCoordinate INITIAL_SNAKE 0%nat 0%nat).
  exact first_draw_free.
Defined.

(** On a snake that covers the grid [generateFood] is never left, whatever
    coordinates of the grid are drawn: no fuel is enough. *)
Lemma generateFood_full_board_never_returns :
  List.length fullBoard = 400%nat /\
  (forall p, inGrid p -> In p fullBoard) /\
  (forall randomCoordinate,
     (forall n, 0 <= randomCoordinate n < GRID_SIZE) ->
     forall fuel calls, generateFood randomCoordinate fuel fullBoard calls = None).
Proof.
  split; [reflexivity|]. split; [exact fullBoard_covers|].
  intros randomCoordinate Hrange. apply generateFood_diverges.
  intros calls. apply some_samePosition_true, fullBoard_covers.
  now apply drawnCell_inGrid.
Qed.

Lemma snake_never_overlaps_demo :
  (gameOver (gameState demoChasing) = false /\
   NoDup (snake (gameState demoChasing)) /\
   (1 <= List.length (snake (gameState demoChasing)))%nat) /\
  (step demoCoordinate 1 demoStarted (Tick demoDay) = Some (demoFed, []) /\
   snakeInvariant (gameState demoFed)).
Proof.
  destruct (snake_never_overlaps demoCoordinate) as [Hreach Hstep].
  split.
  - split; [reflexivity|].
    apply (Hreach demoChasing demoChasing_reachable). reflexivity.
  - split; [exact demoFed_tick|].
    apply (Hstep 1%nat demoStarted (Tick demoDay) demoFed []).
    + apply (Hreach demoStarted demoStarted_reachable). reflexivity.
    + exact demoFed_tick.
Defined.

Lemma body_collision_ends_game_demo :
  lifecycle demoChasing = Running /\
  proposedHead (gameState demoChasing) (mkPosition 12 9) =
    last (snake (gameState demoChasing)) (mkPosition 12 9) /\
  collision (proposedHead (gameState demoChasing) (mkPosition 12 9))
    (snake (gameState demoChasing)) = Some Self /\
  exists w' out,
    gameLoop demoCoordinate 0 demoChasing demoDay = Some (w', out) /\
    lifecycle w' = GameOver.
Proof.
  destruct (body_collision_ends_game demoCoordinate 0 demoChasing demoDay
              (mkPosition 12 9)
              [mkPosition 13 9; mkPosition 13 10; mkPosition 12 10]
              eq_refl eq_refl) as (_ & Hself & Hends).
  split; [reflexivity|]. split; [reflexivity|]. split.
  - apply Hself; [reflexivity|]. right. right. right. left. reflexivity.
  - apply Hends. right. reflexivity.
Defined.

Lemma eating_grows_by_one_demo :
  (exists w',
     gameLoop demoCoordinate 1 demoStarted demoDay = Some (w', []) /\
     List.length (snake (gameState w')) = 2%nat /\
     score (gameState w') = 10) /\
  (exists w',
     gameLoop demoCoordinate 0 (handleKeyPress demoStarted "ArrowUp") demoDay
     = Some (w', []) /\
     List.length (snake (gameState w')) = 1%nat /\
     score (gameState w') = 0).
Proof.
  split.
  - destruct (eating_grows_by_one demoCoordinate 1 demoStarted demoDay
                (mkPosition 10 10) [] demoCoordinate_range demoStarted_reachable
                eq_refl eq_refl) as [Heats _].
    destruct (Heats eq_refl) as [_ Hreturns].
    apply (Hreturns 0%nat). intros H. vm_compute in H.
    destruct H as [H|[H|[]]]; discriminate H.
  - destruct (eating_grows_by_one demoCoordinate 0
                (handleKeyPress demoStarted "ArrowUp") demoDay
                (mkPosition 10 10) [] demoCoordinate_range) as [_ Hmoves].
    + apply (reachable_step demoCoordinate 0 demoStarted (KeyDown "ArrowUp") _ []).
      * exact demoStarted_reachable.
      * reflexivity.
    + reflexivity.
    + reflexivity.
    + apply Hmoves; [discriminate | reflexivity].
Defined.

Lemma wall_collision_saves_one_record_demo :
  lifecycle demoAtWall = Running /\
  hitsWall (proposedHead (gameState demoAtWall) (mkPosition 10 0)) = true /\
  exists w',
    gameLoop demoCoordinate 0 demoAtWall demoDay
    = Some (w', [GameRecord.mk 0 1 demoDay "Medium"]) /\
    lifecycle w' = GameOver /\
    snakeGameHistory (localStorage w') = Some [GameRecord.mk 0 1 demoDay "Medium"].
Proof.
  split; [reflexivity|]. split; [reflexivity|].
  destruct (wall_collision_saves_one_record demoCoordinate 0 demoAtWall demoDay
              (mkPosition 10 0) [] eq_refl eq_refl eq_refl)
    as (w' & Htick & Hover & _ & _ & _ & _ & Hstored & _).
  exists w'. split; [exact Htick|]. split; [exact Hover | exact Hstored].
Defined.

Lemma level_follows_score_demo :
  level (gameState demoChasing) = score (gameState demoChasing) / 100 + 1 /\
  0 <= score (gameState demoChasing) /\
  score (gameState demoChasing) mod 10 = 0.
Proof.
  exact (proj1 (level_follows_score demoCoordinate) demoChasing demoChasing_reachable).
Defined.

Lemma reversal_is_ignored_demo :
  direction (gameState demoStarted) = "RIGHT"%string /\
  handleKeyPress demoStarted "ArrowLeft" = demoStarted /\
  step demoCoordinate 1 demoStarted (KeyDown "ArrowLeft") = Some (demoStarted, []) /\
  gameLoop demoCoordinate 1 (handleKeyPress demoStarted "ArrowLeft") demoDay
  = gameLoop demoCoordinate 1 demoStarted demoDay /\
  direction (gameState (handleKeyPress demoStarted "ArrowLeft"))
  = direction (gameState demoStarted).
Proof.
  split; [reflexivity|].
  apply (reversal_is_ignored demoCoordinate 1 demoStarted "ArrowLeft" "RIGHT" demoDay).
  - right. right. left. reflexivity.
  - reflexivity.
Defined.

Lemma collision_keeps_the_board_demo :
  lifecycle demoAtWall = Running /\
  collision (proposedHead (gameState demoAtWall) (mkPosition 10 0))
    (snake (gameState demoAtWall)) = Some Wall /\
  exists w' out,
    gameLoop demoCoordinate 0 demoAtWall demoDay = Some (w', out) /\
    board (gameState w') = board (gameState demoAtWall) /\
    gameOver (gameState w') = true /\
    gameHistory (gameState w') = [GameRecord.mk 0 1 demoDay "Medium"].
Proof.
  split; [reflexivity|]. split; [reflexivity|].
  destruct (collision_keeps_the_board demoCoordinate 0 demoAtWall demoDay
              (mkPosition 10 0) [] Wall eq_refl eq_refl eq_refl)
    as (w' & out & Htick & Hsnake & Hfood & Hscore & Hlevel & _ & _ & Hover & _ & Hhist).
  exists w', out. split; [exact Htick|]. split.
  - unfold board. now rewrite Hsnake, Hfood, Hscore, Hlevel.
  - split; [exact Hover | exact Hhist].
Defined.

(** The tick that runs the demo game into the wall changes more of the
    game state than the game-over flag: the history gains the record. *)
Lemma collision_tick_changes_history :
  exists w' out,
    gameLoop demoCoordinate 0 demoAtWall demoDay = Some (w', out) /\
    gameOver (gameState w') = true /\
    gameHistory (gameState demoAtWall) = [] /\
    gameHistory (gameState w') = [GameRecord.mk 0 1 demoDay "Medium"] /\
    gameHistory (gameState w') <> gameHistory (gameState demoAtWall).
Proof.
  eexists. eexists. split; [reflexivity|].
  repeat split. discriminate.
Qed.

(** * More of the game played out *)

(** Two games: the first eats once and runs into the top wall, the second,
    on the next day, runs into it at once. *)
Definition demoTwoGamesEvents : list Event :=
  ClickStart :: Tick demoDay :: KeyDown "ArrowUp" :: repeat (Tick demoDay) 11 ++
  ClickReset :: ClickStart :: KeyDown "ArrowUp" :: repeat (Tick "2025-03-02") 11.

Definition demoFirstRecord : GameRecord.t := GameRecord.mk 10 1 demoDay "Medium".

Definition demoSecondRecord : GameRecord.t := GameRecord.mk 0 1 "2025-03-02" "Medium".

Definition demoTwoGames : Component :=
  mkComponent
    (mkGameState [mkPosition 10 0] (mkPosition 13 10) "UP" true false 0 1 10
       [demoSecondRecord; demoFirstRecord])
    medium true
    (mkStorage (Some 10) (Some [demoSecondRecord; demoFirstRecord])) 6.

(** A started game whose direction is no direction. *)
Definition demoAstray : Component :=
  withGameState (withDirection "NORTH" (gameState demoStarted)) demoStarted.

Lemma demoTwoGames_run :
  run demoCoordinate 1 demoMounted demoTwoGamesEvents
  = Some (demoTwoGames, [demoFirstRecord; demoSecondRecord]).
Proof. vm_compute. reflexivity. Qed.

Lemma demoTwoGames_reachable : reachable demoCoordinate demoTwoGames.
Proof.
  eapply reachable_run; [|exact demoTwoGames_run].
  unfold demoMounted. apply reachable_mount.
Qed.

Lemma demoFed_reachable : reachable demoCoordinate demoFed.
Proof.
  apply (reachable_step demoCoordinate 1 demoStarted (Tick demoDay) demoFed []).
  - exact demoStarted_reachable.
  - exact demoFed_tick.
Qed.

(** The snake is never longer than the grid has cells, so in every
    reachable state the score is at most 3990 and the level at most 40. *)
Theorem score_is_bounded randomCoordinate w :
  reachable randomCoordinate w ->
  (List.length (snake (gameState w)) <= 400)%nat /\
  score (gameState w) <= 3990 /\
  level (gameState w) <= 40.
Proof.
  intros Hreach.
  pose proof (reachable_keeps randomCoordinate _ (snakeInvariant_board)
                (snakeInvariant_fresh randomCoordinate)
                (snakeInvariant_ticks randomCoordinate) w Hreach) as [Hnodup _].
  pose proof (reachable_keeps randomCoordinate _ (scoreInvariant_board)
                (scoreInvariant_fresh randomCoordinate)
                (scoreInvariant_ticks randomCoordinate) w Hreach) as (Hlevel & _ & _).
  pose proof (reachable_inGrid randomCoordinate w Hreach) as Hgrid.
  pose proof (reachable_score randomCoordinate w Hreach) as Hscore.
  assert (Hlen : (List.length (snake (gameState w)) <= 400)%nat).
  { change 400%nat with (List.length fullBoard).
    apply NoDup_incl_length; [exact Hnodup|].
    intros p Hp. apply fullBoard_covers.
    rewrite Forall_forall in Hgrid. now apply Hgrid. }
  split; [exact Hlen|].
  assert (score (gameState w) <= 3990) by lia.
  split; [assumption|].
  rewrite Hlevel.
  pose proof (Z.div_le_mono (score (gameState w)) 3990 100 ltac:(lia) ltac:(lia)).
  change (3990 / 100) with 39 in *. lia.
Qed.

(** ** The further properties on the game played out *)

Lemma snake_stays_in_grid_demo : Forall inGrid (snake (gameState demoChasing)).
Proof. exact (snake_stays_in_grid demoCoordinate demoChasing demoChasing_reachable). Defined.

Lemma score_counts_growth_demo :
  score (gameState demoChasing) = 30 /\
  List.length (snake (gameState demoChasing)) = 4%nat /\
  score (gameState demoChasing)
  = 10 * (Z.of_nat (List.length (snake (gameState demoChasing))) - 1).
Proof.
  split; [reflexivity|]. split; [reflexivity|].
  exact (score_counts_growth demoCoordinate demoChasing demoChasing_reachable).
Defined.

Lemma score_is_bounded_demo :
  (List.length (snake (gameState demoChasing)) <= 400)%nat /\
  score (gameState demoChasing) <= 3990 /\
  level (gameState demoChasing) <= 40.
Proof. exact (score_is_bounded demoCoordinate demoChasing demoChasing_reachable). Defined.

Lemma snake_is_a_chain_demo :
  In (direction (gameState demoChasing)) directions /\
  chain (snake (gameState demoChasing)).
Proof. exact (snake_is_a_chain demoCoordinate demoChasing demoChasing_reachable). Defined.

Lemma no_play_outside_a_game_demo :
  lifecycle demoTwoGames = GameOver /\
  step demoCoordinate 1 demoTwoGames (Tick demoDay) = Some (demoTwoGames, []) /\
  step demoCoordinate 1 demoTwoGames (KeyDown "ArrowLeft") = Some (demoTwoGames, []) /\
  step demoCoordinate 1 demoTwoGames ClickPause = Some (demoTwoGames, []) /\
  step demoCoordinate 1 demoTwoGames ClickStart = Some (demoTwoGames, []).
Proof.
  destruct (no_play_outside_a_game demoCoordinate 1 demoTwoGames (or_intror eq_refl))
    as (Htick & Hkey & Hpause & Hstart).
  split; [reflexivity|]. split; [apply Htick|]. split; [apply Hkey|].
  split; [exact Hpause | apply Hstart; reflexivity].
Defined.

Lemma record_marks_game_over_demo :
  (exists w',
     step demoCoordinate 1 demoAtWall (Tick demoDay)
     = Some (w', [GameRecord.mk 0 1 demoDay "Medium"]) /\
     lifecycle demoAtWall = Running /\ lifecycle w' = GameOver) /\
  (step demoCoordinate 1 demoStarted (Tick demoDay) = Some (demoFed, []) /\
   lifecycle demoFed <> GameOver).
Proof.
  split.
  - destruct (step demoCoordinate 1 demoAtWall (Tick demoDay)) as [[w' out]|] eqn:Hstep;
      [|discriminate Hstep].
    destruct (record_marks_game_over demoCoordinate 1 demoAtWall (Tick demoDay) w' out Hstep)
      as [[Hout _]|(today & Hday & Hrun & Hover & Hout)].
    + subst out. discriminate Hstep.
    + injection Hday as <-. exists w'. rewrite Hout. repeat split; assumption.
  - split; [exact demoFed_tick|].
    destruct (record_marks_game_over demoCoordinate 1 demoStarted (Tick demoDay) demoFed []
                demoFed_tick) as [[_ Hnot]|(today & _ & _ & _ & Hout)].
    + apply Hnot. discriminate.
    + discriminate Hout.
Defined.

Lemma pause_then_resume_demo :
  lifecycle demoStarted = Running /\
  lifecycle (togglePause demoStarted) = Paused /\
  step demoCoordinate 1 (togglePause demoStarted) (Tick demoDay)
  = Some (togglePause demoStarted, []) /\
  togglePause (togglePause demoStarted) = demoStarted.
Proof.
  destruct (pause_then_resume demoCoordinate 1 demoStarted eq_refl)
    as (Hpaused & Htick & Hback).
  split; [reflexivity|]. split; [exact Hpaused|].
  split; [apply Htick | exact Hback].
Defined.

Lemma turn_is_taken_demo :
  paused (gameState (togglePause demoStarted)) = true /\
  handleKeyPress (togglePause demoStarted) "ArrowUp"
  = withGameState (withDirection "UP" (gameState (togglePause demoStarted)))
      (togglePause demoStarted).
Proof.
  split; [reflexivity|].
  apply (turn_is_taken (togglePause demoStarted) "ArrowUp" "UP" "DOWN").
  - reflexivity.
  - reflexivity.
  - left. reflexivity.
  - left. reflexivity.
  - discriminate.
Defined.

Lemma quick_turns_reverse_demo :
  direction (gameState demoFed) = "RIGHT"%string /\
  direction (gameState (handleKeyPress (handleKeyPress demoFed "ArrowUp") "ArrowLeft"))
  = "LEFT"%string /\
  exists w',
    gameLoop demoCoordinate 1
      (handleKeyPress (handleKeyPress demoFed "ArrowUp") "ArrowLeft") demoDay
    = Some (w', [GameRecord.mk 10 1 demoDay "Medium"]) /\
    lifecycle w' = GameOver.
Proof.
  destruct (quick_turns_reverse demoCoordinate 1 demoFed demoDay
              "RIGHT" "ArrowUp" "ArrowLeft" "LEFT"
              (mkPosition 11 10) [mkPosition 10 10]
              eq_refl eq_refl eq_refl (or_introl eq_refl)) as [Hdir Hends].
  split; [reflexivity|]. split; [exact Hdir|].
  apply Hends. right. left. reflexivity.
Defined.

Lemma unknown_direction_ends_game_demo :
  ~ In (direction (gameState demoAstray)) directions /\
  exists w',
    gameLoop demoCoordinate 1 demoAstray demoDay
    = Some (w', [GameRecord.mk 0 1 demoDay "Medium"]) /\
    lifecycle w' = GameOver.
Proof.
  assert (H : ~ In (direction (gameState demoAstray)) directions).
  { intros [H|[H|[H|[H|[]]]]]; discriminate H. }
  split; [exact H|].
  exact (proj2 (unknown_direction_ends_game demoCoordinate 1 demoAstray demoDay
                  (mkPosition 10 10) [] eq_refl eq_refl H)).
Defined.

Lemma history_keeps_latest_ten_demo :
  gameHistory (gameState demoTwoGames) = [demoSecondRecord; demoFirstRecord] /\
  (List.length (gameHistory (gameState demoTwoGames)) <= 10)%nat.
Proof.
  destruct (history_keeps_latest_ten demoCoordinate 1 demoTwoGamesEvents
              demoMounted demoTwoGames [demoFirstRecord; demoSecondRecord]
              demoTwoGames_run) as [Hhist Hcap].
  split; [exact Hhist|]. apply Hcap. discriminate.
Defined.

Lemma high_score_is_the_maximum_demo :
  highScore (gameState demoTwoGames) = 10 /\
  highScore (gameState demoMounted) <= highScore (gameState demoTwoGames) /\
  Forall (fun r => GameRecord.score r <= highScore (gameState demoTwoGames))
    [demoFirstRecord; demoSecondRecord].
Proof.
  exact (high_score_is_the_maximum demoCoordinate 1 demoTwoGamesEvents
           demoMounted demoTwoGames [demoFirstRecord; demoSecondRecord]
           demoTwoGames_run).
Defined.

Lemma more_fuel_same_game_demo :
  run demoCoordinate 7 demoMounted demoTwoGamesEvents
  = Some (demoTwoGames, [demoFirstRecord; demoSecondRecord]).
Proof.
  apply (more_fuel_same_game demoCoordinate 1 7 demoTwoGamesEvents demoMounted
           _ demoTwoGames_run).
  lia.
Defined.

Lemma board_shows_the_game_demo :
  cellKind (gameState demoChasing) 12 9 = HeadCell /\
  cellKind (gameState demoChasing) 13 10 = BodyCell /\
  cellKind (gameState demoChasing) 6 7 = FoodCell /\
  cellKind (gameState demoChasing) 0 0 = EmptyCell.
Proof.
  split; [|split; [|split]].
  - apply (board_shows_the_game demoCoordinate demoChasing 12 9 demoChasing_reachable).
    reflexivity.
  - apply (board_shows_the_game demoCoordinate demoChasing 13 10 demoChasing_reachable).
    right. left. reflexivity.
  - apply (board_shows_the_game demoCoordinate demoChasing 6 7 demoChasing_reachable).
    reflexivity.
  - apply (board_shows_the_game demoCoordinate demoChasing 0 0 demoChasing_reachable).
    split.
    + intros [H|[H|[H|[H|[]]]]]; discriminate H.
    + discriminate.
Defined.

Lemma food_is_on_the_board_demo :
  inGrid (food (gameState demoChasing)) /\
  In (mkPosition 6 7, cellClass FoodCell) (renderGameBoard (gameState demoChasing)).
Proof.
  exact (food_is_on_the_board demoCoordinate demoChasing demoCoordinate_range
           demoChasing_reachable).
Defined.

(** * A game that fills the board

    The draws put every food right in front of the head: the snake walks
    to the bottom left corner, then eats its way up the grid row by row,
    until it lies on every cell but the top left one, where the last food
    is. *)

Definition fillingCoordinate (n : nat) : Z :=
  let cell := nth (398 - Nat.div n 2) fullBoard (mkPosition 0 0) in
  if Nat.even n then x cell else y cell.

Definition fillingEvents : list Event :=
  [ClickStart; KeyDown "ArrowDown"; Tick demoDay; KeyDown "ArrowLeft"] ++
  repeat (Tick demoDay) 10 ++ [KeyDown "ArrowDown"] ++
  repeat (Tick demoDay) 8 ++ [KeyDown "ArrowRight"] ++
  List.concat
    (repeat
       (repeat (Tick demoDay) 19 ++
        [KeyDown "ArrowUp"; Tick demoDay; KeyDown "ArrowLeft"] ++
        repeat (Tick demoDay) 19 ++
        [KeyDown "ArrowUp"; Tick demoDay; KeyDown "ArrowRight"])
       9) ++
  repeat (Tick demoDay) 19 ++
  [KeyDown "ArrowUp"; Tick demoDay; KeyDown "ArrowLeft"] ++
  repeat (Tick demoDay) 18.

(** After [fillingEvents]: 399 cells, the head next to the last food. *)
Definition demoNearlyFull : Component :=
  mkComponent
    (mkGameState (tl fullBoard) (mkPosition 0 0) "LEFT" false false 3980 40 0 [])
    medium true (mkStorage None None) 798.

Lemma fullBoard_inGrid p : In p fullBoard -> inGrid p.
Proof.
  assert (H : forallb (fun q => negb (hitsWall q)) fullBoard = true)
    by (vm_compute; reflexivity).
  rewrite forallb_forall in H. intros Hp. specialize (H p Hp).
  unfold inGrid. now destruct (hitsWall p).
Qed.

Lemma fillingCoordinate_range n : 0 <= fillingCoordinate n < GRID_SIZE.
Proof.
  unfold fillingCoordinate.
  assert (Hgrid : inGrid (nth (398 - Nat.div n 2) fullBoard (mkPosition 0 0))).
  { destruct (nth_in_or_default (398 - Nat.div n 2) fullBoard (mkPosition 0 0))
      as [H|H].
    - now apply fullBoard_inGrid.
    - rewrite H. reflexivity. }
  apply inGrid_bounds in Hgrid as [Hx Hy].
  destruct (Nat.even n); assumption.
Qed.

Lemma demoNearlyFull_run :
  run fillingCoordinate 1 demoMounted fillingEvents = Some (demoNearlyFull, []).
Proof. vm_compute. reflexivity. Qed.

Lemma demoNearlyFull_reachable : reachable fillingCoordinate demoNearlyFull.
Proof.
  eapply reachable_run; [|exact demoNearlyFull_run].
  unfold demoMounted. apply reachable_mount.
Qed.

(** A tick that eats waits for [generateFood]. *)
Lemma gameLoop_waits_for_food randomCoordinate fuel w today first rest :
  gameOver (gameState w) || paused (gameState w) = false ->
  snake (gameState w) = first :: rest ->
  collision (proposedHead (gameState w) first) (snake (gameState w)) = None ->
  proposedHead (gameState w) first = food (gameState w) ->
  generateFood randomCoordinate fuel
    (proposedHead (gameState w) first :: snake (gameState w)) (randomCalls w)
  = None ->
  gameLoop randomCoordinate fuel w today = None.
Proof.
  intros Hrun Hsnake Hcol Heq Hgen. unfold gameLoop. rewrite Hrun, Hsnake.
  fold (proposedHead (gameState w) first). rewrite <- Hsnake, Hcol, eats_test.
  assert (Heat : samePosition (food (gameState w)) (proposedHead (gameState w) first) = true)
    by now apply samePosition_true.
  rewrite Heat, Hgen. reflexivity.
Qed.

(** The tick that would eat the last food of the board-filling game is a
    running tick of a reachable state whose head lands on the food, and it
    is never completed: with its new head the snake lies on every cell, so
    the placement of the next food finds no cell, and the snake does not
    grow and the score does not rise. *)
Lemma eating_tick_on_full_board_never_returns :
  (forall n, 0 <= fillingCoordinate n < GRID_SIZE) /\
  reachable fillingCoordinate demoNearlyFull /\
  lifecycle demoNearlyFull = Running /\
  List.length (snake (gameState demoNearlyFull)) = 399%nat /\
  proposedHead (gameState demoNearlyFull) (mkPosition 1 0)
  = food (gameState demoNearlyFull) /\
  collision (proposedHead (gameState demoNearlyFull) (mkPosition 1 0))
    (snake (gameState demoNearlyFull)) = None /\
  (forall fuel today,
     gameLoop fillingCoordinate fuel demoNearlyFull today = None).
Proof.
  split; [exact fillingCoordinate_range|].
  split; [exact demoNearlyFull_reachable|].
  split; [reflexivity|]. split; [reflexivity|]. split; [reflexivity|].
  split; [vm_compute; reflexivity|].
  intros fuel today.
  apply (gameLoop_waits_for_food fillingCoordinate fuel demoNearlyFull today
           (mkPosition 1 0) (tl (tl fullBoard))).
  - reflexivity.
  - reflexivity.
  - vm_compute. reflexivity.
  - reflexivity.
  - change (proposedHead (gameState demoNearlyFull) (mkPosition 1 0)
            :: snake (gameState demoNearlyFull)) with fullBoard.
    apply generateFood_diverges. intros calls.
    apply some_samePosition_true, fullBoard_covers.
    apply drawnCell_inGrid. exact fillingCoordinate_range.
Qed.

(** * A reversal that is taken *)

(** C8, where the code departs from it. In the demo game after the first
    food the snake moves right. The up key is taken and stored; before any
    tick, the left key, which asks for the opposite of the direction the
    snake is moving in, is compared with the stored direction only, is taken
    as well and changes the state. Without it the next tick moves the head
    up and the game goes on; with it the next tick moves the head left, onto
    the snake, and the game is over. *)
Theorem reversal_after_a_turn_is_taken :
  reachable demoCoordinate (handleKeyPress demoFed "ArrowUp") /\
  snake (gameState demoFed) = [mkPosition 11 10; mkPosition 10 10] /\
  mkPosition 11 10 = moveHead "RIGHT" (mkPosition 10 10) /\
  snake (gameState (handleKeyPress demoFed "ArrowUp")) = snake (gameState demoFed) /\
  direction (gameState (handleKeyPress demoFed "ArrowUp")) = "UP"%string /\
  handleKeyPress (handleKeyPress demoFed "ArrowUp") "ArrowLeft"
  <> handleKeyPress demoFed "ArrowUp" /\
  direction (gameState (handleKeyPress (handleKeyPress demoFed "ArrowUp") "ArrowLeft"))
  = "LEFT"%string /\
  (exists w',
     gameLoop demoCoordinate 1 (handleKeyPress demoFed "ArrowUp") demoDay
     = Some (w', []) /\
     snake (gameState w') = [mkPosition 11 9; mkPosition 11 10] /\
     lifecycle w' = Running) /\
  (exists w',
     gameLoop demoCoordinate 1
       (handleKeyPress (handleKeyPress demoFed "ArrowUp") "ArrowLeft") demoDay
     = Some (w', [GameRecord.mk 10 1 demoDay "Medium"]) /\
     proposedHead
       (gameState (handleKeyPress (handleKeyPress demoFed "ArrowUp") "ArrowLeft"))
       (mkPosition 11 10) = mkPosition 10 10 /\
     lifecycle w' = GameOver).
Proof.
  split.
  { apply (reachable_step demoCoordinate 1 demoFed (KeyDown "ArrowUp") _ []).
    - exact demoFed_reachable.
    - reflexivity. }
  repeat (split; [reflexivity|]).
  split; [discriminate|]. split; [reflexivity|]. split.
  - eexists. split; [vm_compute; reflexivity|]. split; reflexivity.
  - eexists. split; [vm_compute; reflexivity|]. split; reflexivity.
Qed.
